(** * fareplay-labs/cli: the deployment orchestration of [fare init]

  A shallow embedding of the provisioning code of the command-line tool:
  the subprocess gateways of [src/utils/fly.ts] and [src/utils/npm.ts],
  the clone of [src/utils/git.ts], the resource provisioners of
  [src/utils/fly.ts] and the task list of [src/commands/init.ts].

  JavaScript strings are modelled as [string] (code units below 256),
  exit codes as [option Z] ([None] is the [null] that Node reports when a
  process is killed by a signal), promises as computations in a state and
  exception monad over the external world. *)

From Stdlib Require Import String Ascii List ZArith Bool Arith Lia DecimalString.
From Stdlib Require Import Permutation.
Import ListNotations.
Local Open Scope list_scope.
Local Open Scope string_scope.

(** ** JavaScript string primitives used by the source *)

Module Js.

(** Truthiness of a string: only the empty string is falsy. *)
Definition truthy (s : string) : bool :=
  match s with EmptyString => false | String _ _ => true end.

(** [a || b] on strings. *)
Definition or (a b : string) : string := if truthy a then a else b.

(** [a || b] where [a] may be [undefined]. *)
Definition orOpt (a : option string) (b : string) : string :=
  match a with
  | Some s => or s b
  | None => b
  end.

(** [s.startsWith(p)] *)
Fixpoint startsWith (p s : string) : bool :=
  match p, s with
  | EmptyString, _ => true
  | String a p', String b s' => if Ascii.eqb a b then startsWith p' s' else false
  | String _ _, EmptyString => false
  end.

(** [s.includes(p)] *)
Fixpoint includes (s p : string) : bool :=
  if startsWith p s then true
  else match s with
       | EmptyString => false
       | String _ s' => includes s' p
       end.

(** [s.split(sep)] for a one-character separator: the pieces between the
    separators, in order; the empty string gives one empty piece. *)
Fixpoint splitAux (sep : ascii) (s : string) (cur : string) : list string :=
  match s with
  | EmptyString => [cur]
  | String c s' =>
      if Ascii.eqb c sep then cur :: splitAux sep s' EmptyString
      else splitAux sep s' (cur ++ String c EmptyString)
  end.

Definition split (sep : ascii) (s : string) : list string :=
  splitAux sep s EmptyString.

(** White space of [\s] and of [trim], on code units below 256: tab, line
    feed, vertical tab, form feed, carriage return, space, no-break space. *)
Definition isSpace (c : ascii) : bool :=
  let n := nat_of_ascii c in
  (((9 <=? n) && (n <=? 13)) || (n =? 32) || (n =? 160))%nat.

Fixpoint trimStart (s : string) : string :=
  match s with
  | EmptyString => EmptyString
  | String c s' => if isSpace c then trimStart s' else s
  end.

Fixpoint trimEnd (s : string) : string :=
  match s with
  | EmptyString => EmptyString
  | String c s' =>
      match trimEnd s' with
      | EmptyString => if isSpace c then EmptyString else String c EmptyString
      | t => String c t
      end
  end.

(** [s.trim()] *)
Definition trim (s : string) : string := trimEnd (trimStart s).

(** Template rendering of a number: [`${n}`]. *)
Definition ofNat (n : nat) : string := NilZero.string_of_uint (Nat.to_uint n).
Definition ofZ (z : Z) : string := NilZero.string_of_int (Z.to_int z).

(** Template rendering of an exit code, which may be [null]. *)
Definition ofCode (c : option Z) : string :=
  match c with
  | Some z => ofZ z
  | None => "null"
  end.

End Js.

(** ** The regular expression of the cluster table

  [/^([a-z0-9]+)\s+\S+\s+\S+\s+\S+\s+(\S+)/] applied with [String.match].
  Every quantified class is followed by a class disjoint from it, so the
  greedy match is the only one: each [+] takes the maximal run of its
  class, and the match fails when a run is empty. *)

Module ClusterLine.

Definition code (c : ascii) : nat := nat_of_ascii c.

(** [[a-z0-9]] *)
Definition isIdChar (c : ascii) : bool :=
  (((97 <=? code c) && (code c <=? 122)) || ((48 <=? code c) && (code c <=? 57)))%nat.

(** [\s] *)
Definition isSpace : ascii -> bool := Js.isSpace.

(** [\S] *)
Definition isNonSpace (c : ascii) : bool := negb (isSpace c).

(** The maximal prefix of [s] in the class [p], and what follows it. *)
Fixpoint span (p : ascii -> bool) (s : string) : string * string :=
  match s with
  | EmptyString => (EmptyString, EmptyString)
  | String c s' =>
      if p c then let '(run, rest) := span p s' in (String c run, rest)
      else (EmptyString, s)
  end.

(** One [class+]: the run, when it is not empty, and the rest. *)
Definition plus (p : ascii -> bool) (s : string) : option (string * string) :=
  let '(run, rest) := span p s in
  if Js.truthy run then Some (run, rest) else None.

(** [line.match(...)]: the two capture groups [(match[1], match[2])]. *)
Definition matchLine (line : string) : option (string * string) :=
  match plus isIdChar line with
  | None => None
  | Some (id, r1) =>
  match plus isSpace r1 with
  | None => None
  | Some (_, r2) =>
  match plus isNonSpace r2 with
  | None => None
  | Some (_, r3) =>
  match plus isSpace r3 with
  | None => None
  | Some (_, r4) =>
  match plus isNonSpace r4 with
  | None => None
  | Some (_, r5) =>
  match plus isSpace r5 with
  | None => None
  | Some (_, r6) =>
  match plus isNonSpace r6 with
  | None => None
  | Some (_, r7) =>
  match plus isSpace r7 with
  | None => None
  | Some (_, r8) =>
  match plus isNonSpace r8 with
  | None => None
  | Some (status, _) => Some (id, status)
  end end end end end end end end end.

End ClusterLine.

(** ** Results, requests and the external platform *)

(** A settled promise: resolved with a value, or rejected with an [Error]
    carrying a message. *)
Inductive Res (A : Type) : Type :=
| Ok (a : A)
| Throw (message : string).
Arguments Ok {A} a.
Arguments Throw {A} message.

(** What [spawn] is asked for. [piped] is false for [stdio: 'inherit'],
    where the child's output is not captured. *)
Record SpawnReq : Type := mkSpawn {
  cmd : string;
  args : list string;
  cwd : option string;
  input : option string;
  piped : bool;
  shell : bool
}.

(** How a child process ends: the ['error'] event, or the ['close'] event
    with the exit code ([None] is [null]: killed by a signal) and what it
    wrote to its output streams. *)
Inductive ProcOutcome : Type :=
| ProcError (message : string)
| ProcClose (code : option Z) (out err : string).

(** [{ stdout, stderr, exitCode }] *)
Record CmdResult : Type := mkCmd {
  stdout : string;
  stderr : string;
  exitCode : Z
}.

(** The typed calls of the GraphQL SDK and their result shapes. *)
Record Org : Type := mkOrg { orgId : string; orgSlug_ : string }.
Record App : Type := mkApp { appId : string }.
Record AddOn : Type := mkAddOn {
  publicUrl : option string;
  environment : option (list (string * string))
}.
Inductive AddOnType : Type := UpstashRedis | Tigris.
Record CreateAppInput : Type := mkCreateApp {
  ca_organizationId : string;
  ca_name : string;
  ca_preferredRegion : string;
  ca_machines : bool
}.
Record CreateAddOnInput : Type := mkCreateAddOn {
  ao_organizationId : string;
  ao_appId : string;
  ao_type : AddOnType;
  ao_name : string;
  ao_primaryRegion : string
}.

(** The decoded output of [fly mpg status --json], as far as the code reads
    it: [JSON.parse] gives [null], or a value whose [credentials] member may
    be absent, with members [pgbouncer_uri] and [password]. *)
Record Credentials : Type := mkCredentials {
  pgbouncer_uri : option string;
  password_ : option string
}.
Inductive StatusData : Type :=
| StatusNull
| StatusValue (credentials : option Credentials).

(** [CasinoConfig] of [src/types]. *)
Record CasinoConfig : Type := mkConfig {
  cfg_casinoName : string;
  ownerWallet : string;
  jwtSecret : string;
  solanaRpcUrl : string;
  heartbeatPrivateKey : string;
  frontendUrl : string;
  postgresUrl : option string;
  redisUrl : option string;
  tigrisBucket : option string;
  databasePassword : option string
}.

(** The operations of the world outside the program: the Node runtime
    ([child_process], [fs], [path], [os], [JSON]), the GraphQL endpoint
    reached through the generated SDK, and the configuration writers of
    [src/utils/config], which are not among the sources. Every operation
    that acts on the world returns the world it leaves. *)
Class Platform (W : Type) : Type := {
  spawn : SpawnReq -> W -> ProcOutcome * W;
  fsAccess : string -> W -> bool;
  fsMkdir : string -> W -> option string * W;
  fsRm : string -> W -> option string * W;
  pathJoin : string -> string -> string;
  homedir : string;
  envHOME : string;
  jsonParse : string -> option StatusData;
  gqlGetCurrentUser : string -> W -> Res (option (list Org)) * W;
  gqlGetApp : string -> string -> W -> Res (option App) * W;
  gqlCreateApp : string -> CreateAppInput -> W -> Res unit * W;
  gqlCreateAddOn : string -> CreateAddOnInput -> W -> Res (option AddOn) * W;
  gqlSetSecrets :
    string -> string -> list (string * option string) -> W -> Res unit * W;
  saveCasinoConfig : string -> CasinoConfig -> W -> Res unit * W;
  generateEnvFile : string -> CasinoConfig -> W -> Res unit * W
}.

(** What the program did to the world, in order. *)
Inductive Event : Type :=
| ESpawn (r : SpawnReq)
| ESleep (ms : nat)
| EMkdir (path : string)
| ERm (path : string)
| EGraphQL (operation : string)
| EConfig (file : string).

(** ** The monad of asynchronous code

    An [async] function is a computation over a state that either resolves
    or throws; the state it leaves is kept in both cases, as the effects of a
    JavaScript function are when it throws. *)

Definition M (S A : Type) : Type := S -> Res A * S.

Definition ret {S A : Type} (a : A) : M S A := fun s => (Ok a, s).

Definition throw {S A : Type} (message : string) : M S A :=
  fun s => (Throw message, s).

Definition bind {S A B : Type} (m : M S A) (k : A -> M S B) : M S B :=
  fun s =>
    match m s with
    | (Ok a, s') => k a s'
    | (Throw e, s') => (Throw e, s')
    end.

(** [try { m } catch (error) { h(error.message) }] *)
Definition tryCatch {S A : Type} (m : M S A) (h : string -> M S A) : M S A :=
  fun s =>
    match m s with
    | (Ok a, s') => (Ok a, s')
    | (Throw e, s') => h e s'
    end.

Declare Scope async_scope.
Delimit Scope async_scope with async.
Notation "x <- m ;; k" := (bind m (fun x => k))
  (at level 100, m at next level, right associativity) : async_scope.
Notation "m ;; k" := (bind m (fun _ => k))
  (at level 100, right associativity) : async_scope.
Local Open Scope async_scope.

(** The system: the world and the journal of what was done to it. *)
Record Sys (W : Type) : Type := mkSys {
  world : W;
  journal : list Event
}.
Arguments mkSys {W} world journal.
Arguments world {W} s.
Arguments journal {W} s.

Section Effects.

Context {W : Type} {P : Platform W}.

Definition record (e : Event) (w : W) (s : Sys W) : Sys W :=
  mkSys w (journal s ++ [e])%list.

(** [spawn(cmd, args, options)] and the wait for its end. *)
Definition doSpawn (r : SpawnReq) (s : Sys W) : ProcOutcome * Sys W :=
  let '(o, w) := spawn r (world s) in (o, record (ESpawn r) w s).

(** [await new Promise(resolve => setTimeout(resolve, ms))] *)
Definition sleep (ms : nat) : M (Sys W) unit :=
  fun s => (Ok tt, record (ESleep ms) (world s) s).

(** A typed call or a writer: the world answers and the call is noted. *)
Definition call {A : Type} (e : Event) (op : W -> Res A * W) : M (Sys W) A :=
  fun s => let '(r, w) := op (world s) in (r, record e w s).

End Effects.

(** ** The subprocess gateways *)

(** [code || 0] *)
Definition orZero (code : option Z) : Z :=
  match code with
  | Some c => c
  | None => 0%Z
  end.

(** The ['close'] handler of [executeFlyCommand] and [executeNpmCommand]:
    [resolve({ stdout, stderr, exitCode: code || 0 })]. The output strings
    are the captured ones, empty when the streams are inherited. *)
Definition onClose (captured : bool) (code : option Z) (out err : string)
  : CmdResult :=
  mkCmd (if captured then out else "") (if captured then err else "")
        (orZero code).

(** [result.exitCode !== 0], the test every caller of a gateway makes. *)
Definition failed (r : CmdResult) : bool := negb (exitCode r =? 0)%Z.

(** The ['close'] handler of [runPrismaMigrations] and [getFlyAuthToken]:
    [if (code !== 0) reject(...)], on the code as reported. *)
Definition rejects (code : option Z) : bool :=
  match code with
  | Some c => negb (c =? 0)%Z
  | None => true
  end.

(** [getFlyCommand]: the first of the possible paths. *)
Definition possiblePaths (home : string) : list string :=
  [ "fly"; "flyctl";
    home ++ "/.fly/bin/fly"; home ++ "/.fly/bin/flyctl";
    "/usr/local/bin/fly"; "/usr/local/bin/flyctl" ].

Definition getFlyCommand (home : string) : string :=
  hd "" (possiblePaths home).

(** The [options] of [executeFlyCommand]. *)
Record FlyOptions : Type := mkFlyOptions {
  opt_cwd : option string;
  opt_input : option string;
  opt_silent : bool;
  opt_interactive : bool
}.

Definition silent : FlyOptions := mkFlyOptions None None true false.
Definition interactive : FlyOptions := mkFlyOptions None None false true.
Definition noOptions : FlyOptions := mkFlyOptions None None false false.

(** [options.cwd || process.cwd()]: [None] stands for the current
    directory of the process. *)
Definition cwdOrCurrent (c : option string) : option string :=
  match c with
  | Some d => if Js.truthy d then Some d else None
  | None => None
  end.

(** [options.input && flyProcess.stdin]: what is written to the child. *)
Definition inputWritten (o : FlyOptions) : option string :=
  match opt_input o with
  | Some i => if Js.truthy i && negb (opt_interactive o) then Some i else None
  | None => None
  end.

Section Gateway.

Context {W : Type} {P : Platform W}.

(** [executeFlyCommand] of [src/utils/fly.ts]. *)
Definition executeFlyCommand (args : list string) (options : FlyOptions)
  : M (Sys W) CmdResult :=
  fun s =>
    let flyCmd := getFlyCommand envHOME in
    let captured := negb (opt_interactive options) in
    let req := mkSpawn flyCmd args (cwdOrCurrent (opt_cwd options))
                       (inputWritten options) captured true in
    match doSpawn req s with
    | (ProcError e, s') => (Throw e, s')
    | (ProcClose code out err, s') => (Ok (onClose captured code out err), s')
    end.

(** [executeNpmCommand] of [src/utils/npm.ts]. It has no ['error'] handler:
    the promise settles on ['close'] only, and a process that cannot be
    started is an uncaught exception of the runtime, shown here as one. *)
Definition executeNpmCommand (args : list string) (dir : option string)
  (quiet : bool) : M (Sys W) CmdResult :=
  fun s =>
    let req := mkSpawn "npm" args dir None quiet true in
    match doSpawn req s with
    | (ProcError e, s') => (Throw e, s')
    | (ProcClose code out err, s') => (Ok (onClose quiet code out err), s')
    end.

(** [installDependencies] *)
Definition installDependencies (projectPath : option string)
  : M (Sys W) unit :=
  result <- executeNpmCommand ["install"] projectPath true ;;
  if failed result
  then throw ("Failed to install dependencies: " ++ stderr result)
  else ret tt.

(** [generatePrismaClient] *)
Definition generatePrismaClient (projectPath : option string)
  : M (Sys W) unit :=
  result <- executeNpmCommand ["run"; "db:generate"] projectPath true ;;
  if failed result
  then throw ("Failed to generate Prisma client: " ++ stderr result)
  else ret tt.

(** [runPrismaMigrations]: its own [spawn], judged on the code as reported. *)
Definition runPrismaMigrations (projectPath : option string)
  (databaseUrl : string) : M (Sys W) unit :=
  fun s =>
    let req := mkSpawn "npm" ["run"; "db:migrate"] projectPath None true true in
    match doSpawn req s with
    | (ProcError e, s') => (Throw e, s')
    | (ProcClose code out err, s') =>
        if rejects code
        then (Throw ("Failed to run database migrations: " ++ Js.or err out), s')
        else (Ok tt, s')
    end.

(** One [npm run build --workspace pkg] of [buildProject]. *)
Definition buildWorkspace (projectPath : option string) (pkg : string)
  : M (Sys W) unit :=
  result <- executeNpmCommand ["run"; "build"; "--workspace"; pkg]
                              projectPath true ;;
  if failed result then throw ("Failed to build " ++ pkg) else ret tt.

Definition packageOrder : list string :=
  ["packages/utils"; "packages/db"; "packages/solana"].

(** The [for (const pkg of ...)] loop of [buildProject]. *)
Fixpoint buildAll (projectPath : option string) (pkgs : list string)
  : M (Sys W) unit :=
  match pkgs with
  | [] => ret tt
  | pkg :: rest => buildWorkspace projectPath pkg ;; buildAll projectPath rest
  end.

(** [buildProject]: the packages in dependency order, then the apps. *)
Definition buildProject (projectPath : option string) : M (Sys W) unit :=
  buildAll projectPath packageOrder ;;
  buildWorkspace projectPath "apps/api" ;;
  buildWorkspace projectPath "apps/ws" ;;
  buildWorkspace projectPath "apps/processor".

(** [deployToFly] *)
Definition deployToFly (appPath : option string) (appName : string)
  : M (Sys W) unit :=
  result <- executeFlyCommand ["deploy"; "--app"; appName]
              (mkFlyOptions appPath None true false) ;;
  if failed result
  then throw ("Deployment failed: " ++ Js.or (stderr result) (stdout result))
  else ret tt.

End Gateway.

(** ** Resource names *)

(** [`${appName}-db`], [`${appName}-redis`], [`${appName}-storage`] *)
Definition dbName (appName : string) : string := appName ++ "-db".
Definition redisName (appName : string) : string := appName ++ "-redis".
Definition tigrisName (appName : string) : string := appName ++ "-storage".

(** The resource kinds and the name derived for each. *)
Inductive ResourceKind : Type := Database | Cache | Storage.

Definition derive (appName : string) (kind : ResourceKind) : string :=
  match kind with
  | Database => dbName appName
  | Cache => redisName appName
  | Storage => tigrisName appName
  end.

(** ** Reading the cluster table *)

Definition maxRetries : nat := 20.

(** [lines.find(line => line.includes(dbName))] on
    [listResult.stdout.split('\n')]. *)
Definition findClusterLine (db : string) (out : string) : option string :=
  find (fun line => Js.includes line db) (Js.split "010"%char out).

(** One pass through the body of the polling loop after the listing has
    returned: the new values of [clusterReady] and [clusterId]. The cluster
    identifier is assigned whenever the line matches, ready or not. *)
Definition interpret (db : string) (listResult : CmdResult)
  (clusterId : string) : bool * string :=
  if (exitCode listResult =? 0)%Z then
    match findClusterLine db (stdout listResult) with
    | Some clusterLine =>
        if Js.truthy clusterLine then
          match ClusterLine.matchLine clusterLine with
          | Some (id, status) =>
              if String.eqb status "ready" then (true, id) else (false, id)
          | None => (false, clusterId)
          end
        else (false, clusterId)
    | None => (false, clusterId)
    end
  else (false, clusterId).

(** The status word of the listing, when there is one. *)
Definition statusOf (db : string) (listResult : CmdResult) : option string :=
  if (exitCode listResult =? 0)%Z then
    match findClusterLine db (stdout listResult) with
    | Some clusterLine =>
        match ClusterLine.matchLine clusterLine with
        | Some (_, status) => Some status
        | None => None
        end
    | None => None
    end
  else None.

(** [{ connectionString, password }] *)
Record PostgresAccess : Type := mkAccess {
  connectionString : string;
  password : string
}.

Definition placeholder : PostgresAccess :=
  mkAccess "postgresql://placeholder" "unknown".

Section Provisioning.

Context {W : Type} {P : Platform W}.

(** The descriptor read from the result of [fly mpg status --json]: the
    placeholders stay unless the command succeeded, its output parsed and
    carries a non-empty [credentials.pgbouncer_uri]. *)
Definition readAccess (statusResult : CmdResult) : PostgresAccess :=
  if (exitCode statusResult =? 0)%Z then
    match jsonParse (stdout statusResult) with
    | None => placeholder
    | Some StatusNull => placeholder
    | Some (StatusValue None) => placeholder
    | Some (StatusValue (Some c)) =>
        match pgbouncer_uri c with
        | Some uri =>
            if Js.truthy uri
            then mkAccess uri (Js.orOpt (password_ c) "unknown")
            else placeholder
        | None => placeholder
        end
    end
  else placeholder.

(** The arguments of the four [fly mpg] commands. *)
Definition createArgs (appName orgSlug region : string) : list string :=
  ["mpg"; "create"; "--name"; dbName appName; "--org"; orgSlug;
   "--region"; region; "--plan"; "basic"; "--volume-size"; "10"].
Definition listArgs (orgSlug : string) : list string :=
  ["mpg"; "list"; "--org"; orgSlug].
Definition attachArgs (clusterId appName : string) : list string :=
  ["mpg"; "attach"; clusterId; "--app"; appName].
Definition statusArgs (clusterId : string) : list string :=
  ["mpg"; "status"; clusterId; "--json"].

(** Phase 1 of [provisionPostgres]: create the cluster. *)
Definition pgCreate (appName orgSlug region : string) : M (Sys W) unit :=
  createResult <- executeFlyCommand (createArgs appName orgSlug region) silent ;;
  if failed createResult
  then throw ("Failed to create Managed Postgres database: "
              ++ Js.or (stderr createResult)
                       (Js.or (stdout createResult) "Unknown error"))
  else ret tt.

(** The loop [for (let i = 0; i < maxRetries; i++)]: [left] is
    [maxRetries - i], the number of passes that remain. It ends by [break]
    when the status is [ready], and otherwise when no pass remains. *)
Fixpoint pollLoop (appName orgSlug : string) (left i : nat)
  (clusterId : string) : M (Sys W) (bool * string) :=
  match left with
  | O => ret (false, clusterId)
  | S left' =>
      listResult <- executeFlyCommand (listArgs orgSlug) silent ;;
      let '(clusterReady, clusterId') :=
        interpret (dbName appName) listResult clusterId in
      if clusterReady then ret (true, clusterId')
      else
        (if (i <? maxRetries - 1)%nat then sleep 3000 else ret tt) ;;
        pollLoop appName orgSlug left' (S i) clusterId'
  end.

Definition notReadyMessage (appName orgSlug : string) : string :=
  "Postgres cluster " ++ dbName appName ++ " is not ready after "
  ++ Js.ofNat (maxRetries * 3) ++ " seconds. Check with: fly mpg list --org "
  ++ orgSlug.

(** Phase 2: settle, poll, and give the cluster identifier or throw. *)
Definition pgAwait (appName orgSlug : string) : M (Sys W) string :=
  sleep 5000 ;;
  polled <- pollLoop appName orgSlug maxRetries 0 "" ;;
  let '(clusterReady, clusterId) := polled in
  if negb clusterReady || negb (Js.truthy clusterId)
  then throw (notReadyMessage appName orgSlug)
  else ret clusterId.

(** Phase 3: attach the cluster to the application, by identifier. *)
Definition pgAttach (clusterId appName : string) : M (Sys W) unit :=
  attachResult <- executeFlyCommand (attachArgs clusterId appName) silent ;;
  if failed attachResult
  then throw ("Failed to attach Managed Postgres database: "
              ++ Js.or (stderr attachResult)
                       (Js.or (stdout attachResult) "Unknown error"))
  else ret tt.

(** Phase 4: ask for the status and read the connection descriptor. *)
Definition pgExtract (clusterId : string) : M (Sys W) PostgresAccess :=
  statusResult <- executeFlyCommand (statusArgs clusterId) silent ;;
  ret (readAccess statusResult).

(** [provisionPostgres] of [src/utils/fly.ts]. *)
Definition provisionPostgres (appName orgSlug region : string)
  : M (Sys W) PostgresAccess :=
  pgCreate appName orgSlug region ;;
  clusterId <- pgAwait appName orgSlug ;;
  pgAttach clusterId appName ;;
  pgExtract clusterId.

End Provisioning.

(** ** The typed calls: [src/utils/graphql-client.ts] and the GraphQL
    provisioners of [src/utils/fly.ts] *)

Section TypedCalls.

Context {W : Type} {P : Platform W}.

(** [getFlyAuthToken]: the first line of the trimmed output of
    [fly auth token]. *)
Definition getFlyAuthToken : M (Sys W) string :=
  fun s =>
    let req := mkSpawn "fly" ["auth"; "token"] None None true true in
    match doSpawn req s with
    | (ProcError e, s') => (Throw e, s')
    | (ProcClose code out err, s') =>
        if rejects code
        then (Throw ("Failed to get Fly auth token: " ++ err), s')
        else (Ok (hd "" (Js.split "010"%char (Js.trim out))), s')
    end.

(** [withFlyGraphQL(operation)]: a client for the current token, then the
    operation on it. *)
Definition withFlyGraphQL {A : Type} (operation : string -> M (Sys W) A)
  : M (Sys W) A :=
  token <- getFlyAuthToken ;;
  operation token.

(** [result.data.viewer.organizations?.nodes || []] *)
Definition currentOrganizations : M (Sys W) (list Org) :=
  withFlyGraphQL (fun sdk =>
    nodes <- call (EGraphQL "GetCurrentUser") (gqlGetCurrentUser sdk) ;;
    ret (match nodes with Some l => l | None => [] end)).

(** [orgs?.find((o) => o.slug === orgSlug)], or the error. *)
Definition findOrganization (orgSlug : string) : M (Sys W) Org :=
  orgs <- currentOrganizations ;;
  match find (fun o => String.eqb (orgSlug_ o) orgSlug) orgs with
  | Some org => ret org
  | None => throw ("Organization '" ++ orgSlug ++ "' not found")
  end.

(** [sdk.GetApp({ name: appName })], or the error when there is no app. *)
Definition findApp (appName : string) : M (Sys W) App :=
  app <- withFlyGraphQL (fun sdk =>
           call (EGraphQL "GetApp") (gqlGetApp sdk appName)) ;;
  match app with
  | Some a => ret a
  | None => throw ("App '" ++ appName ++ "' not found")
  end.

(** [catch (error) { throw new Error(`${prefix}: ${error.message}`) }] *)
Definition rethrow {A : Type} (prefix : string) (m : M (Sys W) A)
  : M (Sys W) A :=
  tryCatch m (fun message => throw (prefix ++ ": " ++ message)).

(** [createFlyApp] *)
Definition createFlyApp (appName orgSlug region : string) : M (Sys W) unit :=
  rethrow "Failed to create Fly.io app"
    (org <- findOrganization orgSlug ;;
     withFlyGraphQL (fun sdk =>
       call (EGraphQL "CreateApp")
            (gqlCreateApp sdk (mkCreateApp (orgId org) appName region true)))).

(** The add-on request shared by the cache and the storage. *)
Definition createAddOn (kind : AddOnType) (operation name : string)
  (appName orgSlug region : string) : M (Sys W) (option AddOn) :=
  org <- findOrganization orgSlug ;;
  app <- findApp appName ;;
  withFlyGraphQL (fun sdk =>
    call (EGraphQL operation)
         (gqlCreateAddOn sdk
            (mkCreateAddOn (orgId org) (appId app) kind name region))).

(** [provisionRedis] *)
Definition provisionRedis (appName orgSlug region : string)
  : M (Sys W) string :=
  rethrow "Failed to create Redis instance"
    (addOn <- createAddOn UpstashRedis "CreateRedis" (redisName appName)
                          appName orgSlug region ;;
     match addOn with
     | None => throw "Failed to create Redis add-on"
     | Some a =>
         ret (Js.orOpt (publicUrl a)
                ("redis://" ++ redisName appName ++ ".internal:6379"))
     end).

(** [{ bucketName, credentials }] *)
Record TigrisAccess : Type := mkTigris {
  bucketName : string;
  tigrisCredentials : list (string * string)
}.

(** [provisionTigris] *)
Definition provisionTigris (appName orgSlug region : string)
  : M (Sys W) TigrisAccess :=
  rethrow "Failed to create Tigris storage"
    (addOn <- createAddOn Tigris "CreateTigris" (tigrisName appName)
                          appName orgSlug region ;;
     match addOn with
     | None => throw "Failed to create Tigris storage"
     | Some a =>
         ret (mkTigris (tigrisName appName)
                (match environment a with Some e => e | None => [] end))
     end).

(** [setSecrets] *)
Definition setSecrets (appName : string)
  (secrets : list (string * option string)) (dir : option string)
  : M (Sys W) unit :=
  rethrow "Failed to set secrets"
    (app <- findApp appName ;;
     withFlyGraphQL (fun sdk =>
       call (EGraphQL "SetSecrets") (gqlSetSecrets sdk (appId app) secrets))).

End TypedCalls.

(** ** The clone: [src/utils/git.ts] *)

Definition CASINO_BACKEND_REPO : string :=
  "https://github.com/fareplay-labs/custom-casino-backend.git".

Section Git.

Context {W : Type} {P : Platform W}.

Definition CASINOS_DIR : string := pathJoin homedir ".fare-casinos".

(** [getCasinoPath] *)
Definition getCasinoPath (casinoName : string) : string :=
  pathJoin CASINOS_DIR casinoName.

(** [ensureCasinosDirectory] *)
Definition ensureCasinosDirectory : M (Sys W) unit :=
  fun s =>
    match fsMkdir CASINOS_DIR (world s) with
    | (None, w) => (Ok tt, record (EMkdir CASINOS_DIR) w s)
    | (Some e, w) =>
        (Throw ("Failed to create casinos directory: Error: " ++ e),
         record (EMkdir CASINOS_DIR) w s)
    end.

(** [casinoExists]: whether [fs.access] resolves. *)
Definition casinoExists (casinoName : string) : M (Sys W) bool :=
  fun s => (Ok (fsAccess (getCasinoPath casinoName) (world s)), s).

(** [fs.rm(casinoPath, { recursive: true, force: true })] inside
    [try ... catch { }]: an error of the removal is ignored. *)
Definition removeQuietly (path : string) : M (Sys W) unit :=
  fun s => let '(_, w) := fsRm path (world s) in (Ok tt, record (ERm path) w s).

Definition cloneArgs (casinoPath : string) : list string :=
  ["clone"; "--depth"; "1"; "--progress"; CASINO_BACKEND_REPO; casinoPath].

(** [cloneCasinoBackend] *)
Definition cloneCasinoBackend (casinoName : string) : M (Sys W) string :=
  ensureCasinosDirectory ;;
  let casinoPath := getCasinoPath casinoName in
  present <- casinoExists casinoName ;;
  if (present : bool) then
    throw ("Casino directory already exists at " ++ casinoPath
           ++ ". Please choose a different name or remove the existing directory.")
  else
    fun s =>
      let req := mkSpawn "git" (cloneArgs casinoPath) None None true false in
      match doSpawn req s with
      | (ProcError e, s') => (Throw ("Failed to start git clone: " ++ e), s')
      | (ProcClose code _ errorOutput, s') =>
          match code with
          | Some 0%Z => (Ok casinoPath, s')
          | _ =>
              (removeQuietly casinoPath ;;
               throw ("Failed to clone repository (exit code "
                      ++ Js.ofCode code ++ "): " ++ errorOutput)) s'
          end
      end.

End Git.

(** ** The context and the task list: [src/commands/init.ts] *)

(** [InitContext]. The run starts from a [Partial<InitContext>]: the path
    and the password are absent until a task writes them. *)
Record InitContext : Type := mkContext {
  casinoName : string;
  casinoPath : option string;
  config : CasinoConfig;
  flyAppName : string;
  flyOrgSlug : string;
  postgresPassword : option string
}.

(** The assignments the tasks make. *)
Definition setCasinoPath (v : string) (c : InitContext) : InitContext :=
  mkContext (casinoName c) (Some v) (config c) (flyAppName c) (flyOrgSlug c)
            (postgresPassword c).

Definition setPostgresPassword (v : string) (c : InitContext) : InitContext :=
  mkContext (casinoName c) (casinoPath c) (config c) (flyAppName c)
            (flyOrgSlug c) (Some v).

Definition setConfig (f : CasinoConfig -> CasinoConfig) (c : InitContext)
  : InitContext :=
  mkContext (casinoName c) (casinoPath c) (f (config c)) (flyAppName c)
            (flyOrgSlug c) (postgresPassword c).

Definition setRedisUrl (v : string) (g : CasinoConfig) : CasinoConfig :=
  mkConfig (cfg_casinoName g) (ownerWallet g) (jwtSecret g) (solanaRpcUrl g)
           (heartbeatPrivateKey g) (frontendUrl g) (postgresUrl g) (Some v)
           (tigrisBucket g) (databasePassword g).

Definition setTigrisBucket (v : string) (g : CasinoConfig) : CasinoConfig :=
  mkConfig (cfg_casinoName g) (ownerWallet g) (jwtSecret g) (solanaRpcUrl g)
           (heartbeatPrivateKey g) (frontendUrl g) (postgresUrl g) (redisUrl g)
           (Some v) (databasePassword g).

Definition setPostgresUrl (v : string) (g : CasinoConfig) : CasinoConfig :=
  mkConfig (cfg_casinoName g) (ownerWallet g) (jwtSecret g) (solanaRpcUrl g)
           (heartbeatPrivateKey g) (frontendUrl g) (Some v) (redisUrl g)
           (tigrisBucket g) (databasePassword g).

Definition setDatabasePassword (v : string) (g : CasinoConfig) : CasinoConfig :=
  mkConfig (cfg_casinoName g) (ownerWallet g) (jwtSecret g) (solanaRpcUrl g)
           (heartbeatPrivateKey g) (frontendUrl g) (postgresUrl g) (redisUrl g)
           (tigrisBucket g) (Some v).

(** [generateFlyAppName] *)
Definition generateFlyAppName (name : string) : string := "fare-" ++ name.

(** The state of a run: the context object, which the tasks share and
    assign to in place, and the system. *)
Record Run (W : Type) : Type := mkRun {
  ctx : InitContext;
  sys : Sys W
}.
Arguments mkRun {W} ctx sys.
Arguments ctx {W} r.
Arguments sys {W} r.

(** A task of the list: [{ title, task }]. *)
Record Task (W : Type) : Type := mkTask {
  title : string;
  task : M (Run W) unit
}.
Arguments mkTask {W} title task.
Arguments title {W} t.
Arguments task {W} t.

Section Tasks.

Context {W : Type} {P : Platform W}.

(** [await f(...)] inside a task: the call acts on the system and leaves the
    context as it is. *)
Definition await {A : Type} (m : M (Sys W) A) : M (Run W) A :=
  fun r => let '(a, s) := m (sys r) in (a, mkRun (ctx r) s).

(** A read of the context. *)
Definition read {A : Type} (f : InitContext -> A) : M (Run W) A :=
  fun r => (Ok (f (ctx r)), r).

(** An assignment to the context. *)
Definition assign (f : InitContext -> InitContext) : M (Run W) unit :=
  fun r => (Ok tt, mkRun (f (ctx r)) (sys r)).

(** The default of the [region] parameter of the provisioners. *)
Definition defaultRegion : string := "iad".

Definition cloneTask : Task W :=
  mkTask "Cloning custom-casino-backend repository"
    (name <- read casinoName ;;
     path <- await (cloneCasinoBackend name) ;;
     assign (setCasinoPath path)).

Definition installTask : Task W :=
  mkTask "Installing dependencies"
    (path <- read casinoPath ;; await (installDependencies path)).

Definition prismaTask : Task W :=
  mkTask "Generating Prisma client"
    (path <- read casinoPath ;; await (generatePrismaClient path)).

Definition buildTask : Task W :=
  mkTask "Building project"
    (path <- read casinoPath ;; await (buildProject path)).

Definition appTask : Task W :=
  mkTask "Creating Fly.io app"
    (app <- read flyAppName ;;
     org <- read flyOrgSlug ;;
     await (createFlyApp app org defaultRegion)).

Definition redisTask : Task W :=
  mkTask "Provisioning Redis instance"
    (app <- read flyAppName ;;
     org <- read flyOrgSlug ;;
     url <- await (provisionRedis app org defaultRegion) ;;
     assign (setConfig (setRedisUrl url))).

Definition tigrisTask : Task W :=
  mkTask "Provisioning Tigris object storage"
    (app <- read flyAppName ;;
     org <- read flyOrgSlug ;;
     bucket <- await (provisionTigris app org defaultRegion) ;;
     assign (setConfig (setTigrisBucket (bucketName bucket)))).

Definition postgresTask : Task W :=
  mkTask "Provisioning Postgres database"
    (app <- read flyAppName ;;
     org <- read flyOrgSlug ;;
     access <- await (provisionPostgres app org defaultRegion) ;;
     assign (setConfig (setPostgresUrl (connectionString access))) ;;
     assign (setConfig (setDatabasePassword (password access))) ;;
     assign (setPostgresPassword (password access))).

Definition configTask : Task W :=
  mkTask "Generating configuration files"
    (name <- read casinoName ;;
     cfg <- read config ;;
     await (call (EConfig "fare.config.json") (saveCasinoConfig name cfg)) ;;
     name' <- read casinoName ;;
     cfg' <- read config ;;
     await (call (EConfig ".env") (generateEnvFile name' cfg'))).

(** The object literal [secrets] of the secrets task, in key order. *)
Definition secretsOf (g : CasinoConfig) : list (string * option string) :=
  [ ("CASINO_NAME", Some (cfg_casinoName g));
    ("OWNER_WALLET", Some (ownerWallet g));
    ("SOLANA_RPC_URL", Some (solanaRpcUrl g));
    ("JWT_SECRET", Some (jwtSecret g));
    ("DATABASE_URL", postgresUrl g);
    ("REDIS_URL", redisUrl g);
    ("NODE_ENV", Some "production") ].

Definition secretsTask : Task W :=
  mkTask "Setting environment secrets"
    (cfg <- read config ;;
     app <- read flyAppName ;;
     path <- read casinoPath ;;
     await (setSecrets app (secretsOf cfg) path)).

Definition deployTask : Task W :=
  mkTask "Deploying to Fly.io"
    (path <- read casinoPath ;;
     app <- read flyAppName ;;
     await (deployToFly path app)).

(** The list given to [new Listr<InitContext>([...])]. *)
Definition initTasks : list (Task W) :=
  [ cloneTask; installTask; prismaTask; buildTask; appTask; redisTask;
    tigrisTask; postgresTask; configTask; secretsTask; deployTask ].

End Tasks.

(** ** The pipeline *)

(** How a run ends: every task done, or the first failing task with its
    position, its title and the reason of its failure. *)
Inductive Outcome : Type :=
| Completed
| Aborted (index : nat) (failing : string) (reason : string).

(** What a run leaves: the outcome, the titles of the tasks whose action was
    invoked, in order, and the state (context and system) at the end. *)
Record Report (W : Type) : Type := mkReport {
  outcome : Outcome;
  executed : list string;
  final : Run W
}.
Arguments mkReport {W} outcome executed final.
Arguments outcome {W} r.
Arguments executed {W} r.
Arguments final {W} r.

(** Modelled from the spec: the engine that runs the task list is
    [Listr.run] of the [listr2] package, which is not among the sources (the
    repository only builds the list and calls [tasks.run(context)]). The
    model follows section 4.1 of the specification: the actions are executed
    in order on the shared context; the first action that fails stops the run,
    no later task is executed and nothing is reversed; the run returns the
    final context, or the failure with the index and title of the failing
    task and its reason. *)
Fixpoint runFrom {W : Type} (i : nat) (tasks : list (Task W)) (done : list string)
  (r : Run W) : Report W :=
  match tasks with
  | [] => mkReport Completed done r
  | t :: rest =>
      match task t r with
      | (Ok _, r') => runFrom (S i) rest (done ++ [title t])%list r'
      | (Throw e, r') => mkReport (Aborted i (title t) e) (done ++ [title t])%list r'
      end
  end.

Definition run {W : Type} (tasks : list (Task W)) (context : InitContext)
  (s : Sys W) : Report W :=
  runFrom 0 tasks [] (mkRun context s).

(** [await tasks.run(context)] in [initCommand]. *)
Definition initPipeline {W : Type} {P : Platform W} (context : InitContext)
  (s : Sys W) : Report W :=
  run initTasks context s.

(** ** A scripted platform

    A concrete world on which the model runs: the child processes end as a
    script says, one entry per [spawn] in order, and with exit code 0 and no
    output once the script is used up; the typed calls answer with fixed
    values; the file system is the list of the paths that exist. A clone
    that starts leaves its target directory behind, complete or partial. *)

Module Scripted.

Record World : Type := mkWorld {
  script : list ProcOutcome;
  paths : list string;
  removalFails : bool
}.

Definition exists_ (p : string) (w : World) : bool :=
  existsb (String.eqb p) (paths w).

Definition createdBy (r : SpawnReq) (o : ProcOutcome) : list string :=
  match o with
  | ProcError _ => []
  | ProcClose _ _ _ =>
      if String.eqb (cmd r) "git" then [last (args r) ""] else []
  end.

Definition spawn (r : SpawnReq) (w : World) : ProcOutcome * World :=
  let o := hd (ProcClose (Some 0%Z) "" "") (script w) in
  (o, mkWorld (tl (script w)) (createdBy r o ++ paths w)%list (removalFails w)).

Definition mkdir (p : string) (w : World) : option string * World :=
  (None, mkWorld (script w) (p :: paths w) (removalFails w)).

Definition rm (p : string) (w : World) : option string * World :=
  if removalFails w then (Some "EACCES: permission denied", w)
  else (None, mkWorld (script w)
                (filter (fun q => negb (String.eqb p q)) (paths w))
                (removalFails w)).

(** The status text that the decoder of the fixture understands. *)
Definition statusText : string := "{credentials}".

Definition decode (s : string) : option StatusData :=
  if String.eqb s statusText
  then Some (StatusValue (Some (mkCredentials
               (Some "postgres://fare:pw@pgbouncer.internal/fare") (Some "pw"))))
  else if String.eqb s "null" then Some StatusNull
  else None.

Definition personal : Org := mkOrg "org-1" "personal".

#[global] Instance platform : Platform World := {
  spawn := spawn;
  fsAccess := exists_;
  fsMkdir := mkdir;
  fsRm := rm;
  pathJoin := fun a b => a ++ "/" ++ b;
  homedir := "/home/op";
  envHOME := "/home/op";
  jsonParse := decode;
  gqlGetCurrentUser := fun _ w => (Ok (Some [personal]), w);
  gqlGetApp := fun _ name w => (Ok (Some (mkApp ("app-" ++ name))), w);
  gqlCreateApp := fun _ _ w => (Ok tt, w);
  gqlCreateAddOn := fun _ i w =>
    (Ok (Some (mkAddOn
       (match ao_type i with
        | UpstashRedis => Some "redis://default:pw@fly-fare-demo-redis.upstash.io"
        | Tigris => None
        end)
       None)), w);
  gqlSetSecrets := fun _ _ _ w => (Ok tt, w);
  saveCasinoConfig := fun _ _ w => (Ok tt, w);
  generateEnvFile := fun _ _ w => (Ok tt, w)
}.

(** A system whose processes follow [sc], with an empty journal. *)
Definition start (sc : list ProcOutcome) (failingRemoval : bool) : Sys World :=
  mkSys (mkWorld sc [] failingRemoval) [].

(** A process that exits with [code] after writing [out]. *)
Definition exits (code : Z) (out : string) : ProcOutcome :=
  ProcClose (Some code) out "".

(** One line of the cluster table for the database of [fare-demo]. *)
Definition tableLine (status : string) : string :=
  "abc123  fare-demo-db  personal  iad  " ++ status ++ "  basic".

Definition demoConfig : CasinoConfig :=
  mkConfig "demo" "9xQeWvG816bUx9EPjHmaT23yvVM2ZWbrrpZb9PusVFin" "jwt"
           "https://api.mainnet-beta.solana.com" "hb" "https://demo.example"
           None None None None.

(** The context [initCommand] builds for the casino [demo]. *)
Definition demoContext : InitContext :=
  mkContext "demo" None demoConfig (generateFlyAppName "demo") "personal" None.

End Scripted.

(** ** What the properties speak of *)

(** Whether an event of the journal is a listing of the clusters of [org]. *)
Definition isListQuery (org : string) (e : Event) : bool :=
  match e with
  | ESpawn r =>
      if list_eq_dec string_dec (args r) ["mpg"; "list"; "--org"; org]
      then true else false
  | _ => false
  end.

(** The number of status queries in a journal. *)
Definition queries (org : string) (j : list Event) : nat :=
  length (filter (isListQuery org) j).

Section PollingModel.

Context {W : Type} {P : Platform W}.
Variables appName orgSlug : string.

(** The wait at the end of a pass that did not see [ready]. *)
Definition pause (i : nat) : M (Sys W) unit :=
  if (i <? maxRetries - 1)%nat then sleep 3000 else ret tt.

(** One pass through the body of the loop. *)
Definition pass (i : nat) (clusterId : string) : M (Sys W) (bool * string) :=
  listResult <- executeFlyCommand (listArgs orgSlug) silent ;;
  let '(clusterReady, clusterId') :=
    interpret (dbName appName) listResult clusterId in
  if clusterReady then ret (true, clusterId')
  else (pause i ;; ret (false, clusterId')).

(** [idle k i c s]: the [k] passes from index [i] each get an answer that is
    not [ready]; the value is the cluster identifier and the system they
    leave. *)
Fixpoint idle (k i : nat) (clusterId : string) (s : Sys W)
  : option (string * Sys W) :=
  match k with
  | O => Some (clusterId, s)
  | S k' =>
      match pass i clusterId s with
      | (Ok (false, clusterId'), s') => idle k' (S i) clusterId' s'
      | _ => None
      end
  end.

(** The system after the settle delay that precedes the loop. *)
Definition settled (s : Sys W) : Sys W := snd (sleep 5000 s).

End PollingModel.


(** The fields of the context, those of [config] included. *)
Inductive Field : Type :=
| FCasinoName | FCasinoPath | FFlyAppName | FFlyOrgSlug | FPostgresPassword
| FConfigCasinoName | FOwnerWallet | FJwtSecret | FSolanaRpcUrl
| FHeartbeatPrivateKey | FFrontendUrl
| FPostgresUrl | FRedisUrl | FTigrisBucket | FDatabasePassword.

(** The value of a field: [None] is [undefined]. *)
Definition get (f : Field) (c : InitContext) : option string :=
  match f with
  | FCasinoName => Some (casinoName c)
  | FCasinoPath => casinoPath c
  | FFlyAppName => Some (flyAppName c)
  | FFlyOrgSlug => Some (flyOrgSlug c)
  | FPostgresPassword => postgresPassword c
  | FConfigCasinoName => Some (cfg_casinoName (config c))
  | FOwnerWallet => Some (ownerWallet (config c))
  | FJwtSecret => Some (jwtSecret (config c))
  | FSolanaRpcUrl => Some (solanaRpcUrl (config c))
  | FHeartbeatPrivateKey => Some (heartbeatPrivateKey (config c))
  | FFrontendUrl => Some (frontendUrl (config c))
  | FPostgresUrl => postgresUrl (config c)
  | FRedisUrl => redisUrl (config c)
  | FTigrisBucket => tigrisBucket (config c)
  | FDatabasePassword => databasePassword (config c)
  end.

(** The fields each task of [initTasks] assigns, task by task. *)
Definition writes : list (list Field) :=
  [ [FCasinoPath]; []; []; []; []; [FRedisUrl]; [FTigrisBucket];
    [FPostgresUrl; FDatabasePassword; FPostgresPassword]; []; []; [] ].

Section Histories.

Context {W : Type} {P : Platform W}.

(** The contexts of a run: the one it starts from, then the one each
    invoked task leaves, the failing task included. *)
Fixpoint history (tasks : list (Task W)) (r : Run W) : list InitContext :=
  ctx r ::
  match tasks with
  | [] => []
  | t :: rest =>
      match task t r with
      | (Ok _, r') => history rest r'
      | (Throw _, r') => [ctx r']
      end
  end.

(** A computation that leaves the field [f] of the context as it found it,
    whether it resolves or throws. *)
Definition keeps (f : Field) {A : Type} (m : M (Run W) A) : Prop :=
  forall r res r', m r = (res, r') -> get f (ctx r') = get f (ctx r).

(** [tasks] assign at most the fields [fps] lists for them. *)
Definition Respect (tasks : list (Task W)) (fps : list (list Field)) : Prop :=
  Forall2 (fun (t : Task W) fp => forall f, ~ In f fp -> keeps f (task t))
          tasks fps.

(** The seven tasks that come before the database task. *)
Definition beforeDatabase : list (Task W) := firstn 7 initTasks.

End Histories.

(** ** Runs on the scripted platform *)

(** The run of [[T1; T2; T3]] on the scripted platform: [T1]
    and [T3] resolve, [T2] throws. *)
Definition okTask (name : string) : Task Scripted.World :=
  mkTask name (await (sleep 1)).
Definition failingTask (name reason : string) : Task Scripted.World :=
  mkTask name (await (sleep 1) ;; throw reason)%async.

(** The cluster appears at the second query and is ready at the third. *)
Definition readyAtThird : Sys Scripted.World :=
  Scripted.start [ Scripted.exits 0 "";
                   Scripted.exits 0 (Scripted.tableLine "creating");
                   Scripted.exits 0 (Scripted.tableLine "ready") ] false.

(** The first query fails; no later one shows the cluster. *)
Definition firstQueryFails : Sys Scripted.World :=
  Scripted.start [ProcClose (Some 1%Z) "" "Error: failed to list clusters"] false.

(** The cluster is listed with the status [failed] at every query. *)
Definition alwaysFailed : Sys Scripted.World :=
  Scripted.start
    (repeat (Scripted.exits 0 (Scripted.tableLine "failed")) 20) false.

(** The cluster is listed as [failed], then as [ready]. *)
Definition failedThenReady : Sys Scripted.World :=
  Scripted.start [ Scripted.exits 0 (Scripted.tableLine "failed");
                   Scripted.exits 0 (Scripted.tableLine "ready") ] false.



(** The clone ends with exit code 128; the removal works, or fails. *)
Definition cloneFails (removalFails : bool) : Sys Scripted.World :=
  Scripted.start
    [ProcClose (Some 128%Z) "" "fatal: unable to access the repository"]
    removalFails.

(** ** More string primitives *)

Module Str.

(** Every code unit of [s] is in the class [p]. *)
Fixpoint all (p : ascii -> bool) (s : string) : bool :=
  match s with
  | EmptyString => true
  | String c s' => p c && all p s'
  end.

(** [s.endsWith(p)]: a suffix of [s] is [p]. *)
Fixpoint endsWith (p s : string) : bool :=
  String.eqb s p ||
  match s with
  | EmptyString => false
  | String _ s' => endsWith p s'
  end.

(** [s.replace(/[^class]/g, by)]: each code unit outside the class becomes
    [by]. *)
Fixpoint replaceOutside (class : ascii -> bool) (by_ : ascii) (s : string)
  : string :=
  match s with
  | EmptyString => EmptyString
  | String c s' =>
      String (if class c then c else by_) (replaceOutside class by_ s')
  end.

Definition between (lo hi : nat) (c : ascii) : bool :=
  ((lo <=? nat_of_ascii c) && (nat_of_ascii c <=? hi))%nat.

Definition isLower : ascii -> bool := between 97 122.
Definition isUpper : ascii -> bool := between 65 90.
Definition isDigit : ascii -> bool := between 48 57.

(** [c.toLowerCase()] on a code unit below 256: the letters [A-Z], and the
    capital letters of Latin-1 (U+00C0 to U+00DE without the multiplication
    sign), move up by 32. *)
Definition lowerChar (c : ascii) : ascii :=
  let n := nat_of_ascii c in
  if isUpper c || (between 192 222 c && negb (n =? 215)%nat)
  then ascii_of_nat (n + 32)
  else c.

Fixpoint toLowerCase (s : string) : string :=
  match s with
  | EmptyString => EmptyString
  | String c s' => String (lowerChar c) (toLowerCase s')
  end.

(** [c.toUpperCase()] on a code unit below 256, as UTF-16 code units: the
    small letters move down by 32, the sharp s becomes [SS], the micro sign
    and the y with diaeresis leave Latin-1. *)
Definition upperUnits (c : ascii) : list nat :=
  let n := nat_of_ascii c in
  if isLower c then [n - 32]
  else if (n =? 181)%nat then [924]
  else if (n =? 223)%nat then [83; 83]
  else if between 224 254 c && negb (n =? 247)%nat then [n - 32]
  else if (n =? 255)%nat then [376]
  else [n].

Fixpoint toUpperCase (s : string) : list nat :=
  match s with
  | EmptyString => []
  | String c s' => (upperUnits c ++ toUpperCase s')%list
  end.

End Str.

(** ** The casino name: [src/commands/init.ts] *)

(** [[a-z0-9-]] *)
Definition isNameChar (c : ascii) : bool :=
  ClusterLine.isIdChar c || Ascii.eqb c "-"%char.

(** [/^[a-z0-9-]+$/.test(name)] *)
Definition validNameRegex (name : string) : bool :=
  Js.truthy name && Str.all isNameChar name.

(** [validateCasinoName] *)
Definition validateCasinoName (name : string) : Res unit :=
  if negb (Js.truthy name) then Throw "Casino name is required"
  else if negb (validNameRegex name) then
    Throw "Casino name must contain only lowercase letters, numbers, and hyphens"
  else if (String.length name <? 3)%nat then
    Throw "Casino name must be at least 3 characters long"
  else if (30 <? String.length name)%nat then
    Throw "Casino name must be less than 30 characters"
  else if Js.startsWith "-" name || Str.endsWith "-" name then
    Throw "Casino name cannot start or end with a hyphen"
  else Ok tt.

(** The [try ... catch] around the validation in [initCommand]. *)
Definition checkCasinoName (name : string) : Res unit :=
  match validateCasinoName name with
  | Ok u => Ok u
  | Throw message => Throw ("Invalid casino name: " ++ message)
  end.

(** ** The names of [src/commands/keygen.ts] *)

(** [/[^A-Z0-9]/g] on a UTF-16 code unit: what is kept. *)
Definition isEnvUnit (n : nat) : bool :=
  ((65 <=? n) && (n <=? 90) || (48 <=? n) && (n <=? 57))%nat.

(** [.replace(/[^A-Z0-9]/g, '_')] on code units. *)
Definition envUnit (n : nat) : ascii :=
  if isEnvUnit n then ascii_of_nat n else "_"%char.

(** [(purpose || 'custom').toUpperCase().replace(/[^A-Z0-9]/g, '_')] *)
Definition envVarName (purpose : option string) : string :=
  string_of_list_ascii
    (map envUnit (Str.toUpperCase (Js.orOpt purpose "custom"))).

(** [[a-zA-Z0-9-_]] *)
Definition isFileChar (c : ascii) : bool :=
  Str.isLower c || Str.isUpper c || Str.isDigit c
  || Ascii.eqb c "-"%char || Ascii.eqb c "_"%char.

(** [filename.trim().replace(/[^a-zA-Z0-9-_]/g, '-')] *)
Definition sanitizedFilename (filename : string) : string :=
  Str.replaceOutside isFileChar "-"%char (Js.trim filename).

(** The [validate] of the file name prompt: [true] when the name is
    accepted. *)
Definition filenameAccepted (input : string) : bool :=
  Js.truthy input && negb (String.length (Js.trim input) =? 0)%nat.

(** [`${sanitizedFilename}.${fileFormat}`] *)
Definition keyFileName (filename fileFormat : string) : string :=
  sanitizedFilename filename ++ "." ++ fileFormat.

(** [[A-Z0-9_]], the characters of an environment variable name. *)
Definition isEnvChar (c : ascii) : bool :=
  Str.isUpper c || Str.isDigit c || Ascii.eqb c "_"%char.

(** ** The probes and the rest of the gateway: [src/utils/fly.ts] *)

Section Probes.

Context {W : Type} {P : Platform W}.





(** [authenticateFly] *)
Definition authenticateFly : M (Sys W) unit :=
  result <- executeFlyCommand ["auth"; "login"] interactive ;;
  if failed result then throw "Fly.io authentication failed" else ret tt.

(** [appExists] *)
Definition appExists (appName : string) : M (Sys W) bool :=
  tryCatch
    (app <- withFlyGraphQL (fun sdk =>
              call (EGraphQL "GetApp") (gqlGetApp sdk appName)) ;;
     ret (match app with Some _ => true | None => false end))
    (fun _ => ret false).

(** The request [getFlyAuthToken] makes. *)
Definition tokenRequest : SpawnReq :=
  mkSpawn "fly" ["auth"; "token"] None None true true.



(** The packages [buildProject] builds, in its order. *)
Definition buildOrder : list string :=
  (packageOrder ++ ["apps/api"; "apps/ws"; "apps/processor"])%list.

(** The request of one build. *)
Definition buildRequest (projectPath : option string) (pkg : string)
  : SpawnReq :=
  mkSpawn "npm" ["run"; "build"; "--workspace"; pkg] projectPath None true true.

End Probes.

(** Whether a code unit is not the line feed. *)
Definition notLineFeed (c : ascii) : bool := negb (Ascii.eqb c "010"%char).



(** [fly auth token] prints the token after blanks, then a warning on a
    second line. *)
Definition tokenThenWarning : Sys Scripted.World :=
  Scripted.start
    [Scripted.exits 0
       ("  fo1_token" ++ String "010"%char "Warning: metrics token unavailable"
        ++ String "010"%char "")] false.

(** The builds of the shared packages succeed and the build of the API
    fails. *)
Definition apiBuildFails : Sys Scripted.World :=
  Scripted.start
    [ Scripted.exits 0 ""; Scripted.exits 0 ""; Scripted.exits 0 "";
      ProcClose (Some 2%Z) "" "error TS2304: Cannot find name" ] false.

(** Scenario A on the scripted platform: every command exits with code 0;
    the nineteenth, the first listing of the clusters, shows the cluster
    ready. *)
Definition everythingSucceeds : Sys Scripted.World :=
  Scripted.start
    (repeat (Scripted.exits 0 "") 18
     ++ [Scripted.exits 0 (Scripted.tableLine "ready")])%list false.

(** The time a journal shows the program asleep, in milliseconds. *)
Fixpoint waited (j : list Event) : Z :=
  match j with
  | [] => 0%Z
  | ESleep ms :: rest => (Z.of_nat ms + waited rest)%Z
  | _ :: rest => waited rest
  end.

(** The pauses that remain from pass [i] when [left] passes remain, in
    milliseconds: one of 3 seconds after each pass but the last of the 20. *)
Definition waitsLeft (left i : nat) : Z :=
  (3000 * Z.of_nat (Nat.min (i + left) (maxRetries - 1)
                    - Nat.min i (maxRetries - 1)))%Z.



(** ** The process groups of [statusCommand]: [src/commands/status.ts] *)

(** A machine as [getAppStatus] gives it. *)
Record Machine : Type := mkMachine {
  machineId : string;
  machineState : string;
  machineRegion : string;
  process_group : option string
}.

(** What is pushed for a machine: [{ id, state, region }]. *)
Record Member : Type := mkMember {
  memberId : string;
  memberState : string;
  memberRegion : string
}.

Definition memberOf (m : Machine) : Member :=
  mkMember (machineId m) (machineState m) (machineRegion m).

(** [machine.process_group || 'default'] *)
Definition groupOf (m : Machine) : string :=
  Js.orOpt (process_group m) "default".

(** The [Map] from group to members, as its entries in insertion order. *)
Definition Groups : Type := list (string * list Member).

(** [processGroups.get(group)] *)
Fixpoint lookupGroup (group : string) (groups : Groups)
  : option (list Member) :=
  match groups with
  | [] => None
  | (g, ms) :: rest =>
      if String.eqb g group then Some ms else lookupGroup group rest
  end.

(** [if (!processGroups.has(group)) processGroups.set(group, []);
    processGroups.get(group).push(x)]: a new group goes last, an old one
    keeps its place. *)
Fixpoint pushTo (group : string) (x : Member) (groups : Groups) : Groups :=
  match groups with
  | [] => [(group, [x])]
  | (g, ms) :: rest =>
      if String.eqb g group then (g, (ms ++ [x])%list) :: rest
      else (g, ms) :: pushTo group x rest
  end.

(** The loop [for (const machine of appStatus.machines)]. *)
Definition processGroups (machines : list Machine) : Groups :=
  fold_left (fun groups m => pushTo (groupOf m) (memberOf m) groups)
            machines [].

(** [machines.filter(m => m.state === 'started').length] *)
Definition runningCount (ms : list Member) : nat :=
  length (filter (fun m => String.eqb (memberState m) "started") ms).

(** One line of the process box, without its colours. *)
Definition processLine (entry : string * list Member) : string :=
  let '(group, ms) := entry in
  group ++ ":  " ++ Js.ofNat (runningCount ms) ++ "/" ++ Js.ofNat (length ms)
  ++ " running  ("
  ++ Js.orOpt (option_map memberRegion (hd_error ms)) "unknown" ++ ")".

(** [processInfo] *)
Definition processInfo (machines : list Machine) : list string :=
  map processLine (processGroups machines).

(** The members of the group [group] among [machines], in their order. *)
Definition membersOf (group : string) (machines : list Machine)
  : list Member :=
  map memberOf (filter (fun m => String.eqb (groupOf m) group) machines).

(** The number of machines in all groups together. *)
Definition totalCount (groups : Groups) : nat :=
  list_sum (map (fun entry => length (snd entry)) groups).

(** ** The choice of the organization: [src/utils/fly.ts] *)

(** A choice of the prompt: [{ name, value }]. *)
Record Choice : Type := mkChoice {
  choiceName : string;
  choiceValue : string
}.

(** [c.value === 'personal' || c.value.toLowerCase().includes('personal')] *)
Definition isPersonal (c : Choice) : bool :=
  String.eqb (choiceValue c) "personal"
  || Js.includes (Str.toLowerCase (choiceValue c)) "personal".

(** [choices.findIndex(p)]: [None] is [-1]. *)
Fixpoint findIndex {A : Type} (p : A -> bool) (l : list A) : option nat :=
  match l with
  | [] => None
  | x :: rest =>
      if p x then Some 0
      else match findIndex p rest with
           | Some i => Some (S i)
           | None => None
           end
  end.

(** [choices.splice(i, 1)]: the list without its element at [i]. *)
Definition removeAt {A : Type} (i : nat) (l : list A) : list A :=
  (firstn i l ++ skipn (S i) l)%list.

(** The block that puts the personal organization first:
    [if (personalIndex > 0) choices.unshift(choices.splice(personalIndex,
    1)[0])]. *)
Definition personalFirst (choices : list Choice) : list Choice :=
  match findIndex isPersonal choices with
  | Some (S i) =>
      match nth_error choices (S i) with
      | Some c => c :: removeAt (S i) choices
      | None => choices
      end
  | _ => choices
  end.

(** [orgSlugs.map(slug => ({ name: `${orgs[slug]} (${slug})`, value: slug }))]
    on the entries of the object, slug first. *)
Definition choicesOf (orgs : list (string * string)) : list Choice :=
  map (fun entry => mkChoice (snd entry ++ " (" ++ fst entry ++ ")") (fst entry))
      orgs.

(** ** The scan of the cleanup: [src/commands/cleanup.ts] *)

(** [line.match(/^([a-z0-9]+)\s+(\S+)/)]: identifier and name. *)
Definition clusterHead (line : string) : option (string * string) :=
  match ClusterLine.plus ClusterLine.isIdChar line with
  | None => None
  | Some (id, r1) =>
  match ClusterLine.plus ClusterLine.isSpace r1 with
  | None => None
  | Some (_, r2) =>
  match ClusterLine.plus ClusterLine.isNonSpace r2 with
  | None => None
  | Some (name, _) => Some (id, name)
  end end end.

(** [line.match(/^(\S+)\s+/)]: the first column. *)
Definition addOnHead (line : string) : option string :=
  match ClusterLine.plus ClusterLine.isNonSpace line with
  | None => None
  | Some (name, r1) =>
  match ClusterLine.plus ClusterLine.isSpace r1 with
  | None => None
  | Some _ => Some name
  end end.

(** The loop of [getFarePostgresClusters] over the lines of the listing. *)
Definition fareClusters (out : string) : list (string * string) :=
  flat_map
    (fun line =>
       if Js.includes line "fare-" && Js.includes line "-db" then
         match clusterHead line with
         | Some cluster => [cluster]
         | None => []
         end
       else [])
    (Js.split "010"%char out).

(** The loop of [getFareAddOns] over the lines of the listing. *)
Definition fareAddOns (suffix : string) (out : string) : list string :=
  flat_map
    (fun line =>
       if Js.includes line "fare-" && Js.includes line suffix then
         match addOnHead line with
         | Some name => [name]
         | None => []
         end
       else [])
    (Js.split "010"%char out).

(** The kinds of add-on the cleanup lists: ['redis' | 'tigris']. *)
Inductive AddOnList : Type := ListRedis | ListTigris.

Definition addOnCommand (kind : AddOnList) : string :=
  match kind with ListRedis => "redis" | ListTigris => "tigris" end.

(** [type === 'redis' ? '-redis' : '-storage'] *)
Definition addOnSuffix (kind : AddOnList) : string :=
  match kind with ListRedis => "-redis" | ListTigris => "-storage" end.

Section Cleanup.

Context {W : Type} {P : Platform W}.

(** [getFlyCommand] of the cleanup: the binary under the home directory. *)
Definition cleanupFlyCommand : string := envHOME ++ "/.fly/bin/flyctl".

(** [executeFlyCommand] of the cleanup, with its default [silent = true].
    Like the gateway of npm it has no ['error'] handler. *)
Definition executeCleanupFly (arguments : list string)
  : M (Sys W) CmdResult :=
  fun s =>
    let req := mkSpawn cleanupFlyCommand arguments None None true true in
    match doSpawn req s with
    | (ProcError e, s') => (Throw e, s')
    | (ProcClose code out err, s') => (Ok (onClose true code out err), s')
    end.

(** [getFarePostgresClusters] *)
Definition getFarePostgresClusters (org : string)
  : M (Sys W) (list (string * string)) :=
  result <- executeCleanupFly ["mpg"; "list"; "--org"; org] ;;
  if failed result then ret [] else ret (fareClusters (stdout result)).

(** [getFareAddOns] *)
Definition getFareAddOns (org : string) (kind : AddOnList)
  : M (Sys W) (list string) :=
  result <- executeCleanupFly [addOnCommand kind; "list"; "--org"; org] ;;
  if failed result then ret []
  else ret (fareAddOns (addOnSuffix kind) (stdout result)).

(** The loops of the destroy tasks: one command for each name, its result
    not looked at. *)
Fixpoint destroyEach (command : string -> list string) (names : list string)
  : M (Sys W) unit :=
  match names with
  | [] => ret tt
  | name :: rest =>
      executeCleanupFly (command name) ;; destroyEach command rest
  end.

Definition destroyApps : list string -> M (Sys W) unit :=
  destroyEach (fun app => ["apps"; "destroy"; app; "--yes"]).
Definition destroyClusters (clusters : list (string * string))
  : M (Sys W) unit :=
  destroyEach (fun id => ["mpg"; "destroy"; id; "--yes"]) (map fst clusters).
Definition destroyRedis : list string -> M (Sys W) unit :=
  destroyEach (fun instance => ["redis"; "destroy"; instance; "-y"]).
Definition destroyStorage : list string -> M (Sys W) unit :=
  destroyEach (fun instance => ["storage"; "destroy"; instance; "-y"]).

End Cleanup.

(** The listing of the clusters and of the caches of the casino [demo]. *)
Definition clusterListing : string :=
  "ID      NAME          ORG       REGION  STATUS  PLAN" ++ String "010"%char
  (Scripted.tableLine "ready" ++ String "010"%char "").

Definition cacheListing : string :=
  "NAME             ORG       PLAN" ++ String "010"%char
  ("fare-demo-redis  personal  free" ++ String "010"%char "").

Section CleanupRuns.

Context {W : Type} {P : Platform W}.

(** The system after the destroy commands for [names], one after the
    other, when each of them could be started; their exit codes do not
    matter. *)
Fixpoint afterDestroys (command : string -> list string)
  (names : list string) (s : Sys W) : option (Sys W) :=
  match names with
  | [] => Some s
  | name :: rest =>
      match executeCleanupFly (command name) s with
      | (Ok _, s1) => afterDestroys command rest s1
      | (Throw _, _) => None
      end
  end.

(** The request of one command of the cleanup. *)
Definition cleanupRequest (arguments : list string) : SpawnReq :=
  mkSpawn cleanupFlyCommand arguments None None true true.

End CleanupRuns.

(** Two applications are to be destroyed and both commands fail. *)
Definition destroysFail : Sys Scripted.World :=
  Scripted.start
    [ ProcClose (Some 1%Z) "" "Error: app not found";
      ProcClose (Some 1%Z) "" "Error: unauthorized" ] false.

(** * Properties *)

Example matchLine_ready :
  ClusterLine.matchLine "abc123  fare-demo-db  personal  iad  ready  basic"
  = Some ("abc123", "ready").
Proof. reflexivity. Qed.

Example matchLine_header :
  ClusterLine.matchLine "ID   NAME   ORG   REGION   STATUS   PLAN" = None.
Proof. reflexivity. Qed.

(** ** Resource names *)

Lemma length_append (a b : string) :
  String.length (a ++ b) = String.length a + String.length b.
Proof.
  induction a as [|c a IH]; simpl; [reflexivity | now rewrite IH].
Qed.

Lemma append_assoc (a b c : string) : (a ++ b) ++ c = a ++ (b ++ c).
Proof.
  induction a as [|x a IH]; simpl; [reflexivity | now rewrite IH].
Qed.

Lemma append_differ (a b c : string) :
  String.length b <> String.length c -> a ++ b <> a ++ c.
Proof.
  intros Hlen Heq. apply Hlen.
  apply (f_equal String.length) in Heq.
  rewrite !length_append in Heq. lia.
Qed.

(** C8. The name of a provisioned resource is the application name followed
    by the suffix of its kind, [-db], [-redis] or [-storage]: a function of
    the application name and the kind alone, so that equal inputs give equal
    names, and for one application the three kinds have three different
    names. *)
Theorem resource_names_deterministic_and_distinct (a : string) :
  dbName a = a ++ "-db"
  /\ redisName a = a ++ "-redis"
  /\ tigrisName a = a ++ "-storage"
  /\ (forall b, a = b ->
        dbName a = dbName b /\ redisName a = redisName b
        /\ tigrisName a = tigrisName b)
  /\ dbName a <> redisName a
  /\ dbName a <> tigrisName a
  /\ redisName a <> tigrisName a.
Proof.
  repeat split; try reflexivity; try (subst; reflexivity);
    unfold dbName, redisName, tigrisName; apply append_differ; simpl; lia.
Qed.

Lemma resource_names_witness :
  dbName "fare-demo" = "fare-demo-db"
  /\ dbName "fare-demo" <> redisName "fare-demo".
Proof.
  pose proof (resource_names_deterministic_and_distinct "fare-demo") as H.
  split; [exact (proj1 H) | exact (proj1 (proj2 (proj2 (proj2 (proj2 H)))))].
Defined.

(** ** Exit codes *)

Lemma failed_onClose (captured : bool) (code : option Z) (out err : string) :
  failed (onClose captured code out err) = true
  <-> exists c, code = Some c /\ c <> 0%Z.
Proof.
  unfold failed, onClose, orZero; simpl. destruct code as [c|].
  - rewrite negb_true_iff, Z.eqb_neq. split.
    + intros H. now exists c.
    + intros [c' [Hc Hne]]. now inversion Hc; subst.
  - simpl. split; [discriminate | intros [c [Hc _]]; discriminate].
Qed.

(** C3. A child process that ends without an exit code (the runtime reports
    [null]: it was killed by a signal) is given exit code 0 by the ['close']
    handler of both gateways, so the test of their callers calls it a
    success, whatever it wrote; [runPrismaMigrations] and [getFlyAuthToken],
    which test the reported code itself, reject the same termination. The
    invocation is a failure exactly when the reported code is a number other
    than 0. *)
Theorem signal_termination_classified_as_success
  (captured : bool) (out err : string) :
  exitCode (onClose captured None out err) = 0%Z
  /\ failed (onClose captured None out err) = false
  /\ rejects None = true
  /\ (forall code, failed (onClose captured code out err) = true
                   <-> exists c, code = Some c /\ c <> 0%Z).
Proof.
  repeat split; try reflexivity; apply failed_onClose.
Qed.

(** The same on a run: [fly deploy] is killed and [deployToFly] resolves;
    [npm install] is killed and [installDependencies] resolves. *)
Example killed_deploy_resolves :
  fst (deployToFly (Some "/home/op/.fare-casinos/demo") "fare-demo"
         (Scripted.start [ProcClose None "" "Killed"] false)) = Ok tt
  /\ fst (installDependencies (Some "/home/op/.fare-casinos/demo")
            (Scripted.start [ProcClose None "" "Killed"] false)) = Ok tt
  /\ fst (runPrismaMigrations (Some "/home/op/.fare-casinos/demo") "postgres://db"
            (Scripted.start [ProcClose None "" "Killed"] false))
     = Throw "Failed to run database migrations: Killed".
Proof. repeat split; reflexivity. Qed.

(** ** The pipeline *)

Section Pipeline.

Context {W : Type}.

Lemma runFrom_completed (tasks : list (Task W)) :
  forall i done r rep,
    runFrom i tasks done r = rep -> outcome rep = Completed ->
    forall more,
      runFrom i (tasks ++ more) done r
      = runFrom (i + length tasks) more (executed rep) (final rep)
      /\ executed rep = (done ++ map title tasks)%list.
Proof.
  induction tasks as [|t rest IH]; intros i done r rep Hrun Hout more.
  - simpl in *. subst rep. simpl. rewrite Nat.add_0_r, app_nil_r. now split.
  - simpl in Hrun |- *. destruct (task t r) as [[u|e] r'].
    + destruct (IH _ _ _ _ Hrun Hout more) as [H1 H2].
      rewrite H1, H2, <- app_assoc.
      replace (S i + length rest) with (i + S (length rest)) by lia.
      now split.
    + subst rep. discriminate.
Qed.

(** C4. The pipeline invokes the actions in the order of the list and stops
    at the first that fails: when the tasks [before] all succeed and the next
    task [t] fails, the run has invoked exactly the actions of [before] and
    of [t], in that order, none of the tasks [after]; it ends in the state
    [t] left, and its failure carries the index and the title of [t] and
    the reason [t] gave. With [before = [T1]] and [after = [T3]] this is
    the run of [[T1; T2; T3]]. *)
Theorem pipeline_stops_at_first_failure
  (before after : list (Task W)) (t : Task W)
  (context : InitContext) (s : Sys W) (r1 r2 : Run W) (e : string) :
  outcome (run before context s) = Completed ->
  final (run before context s) = r1 ->
  task t r1 = (Throw e, r2) ->
  run (before ++ t :: after) context s
  = mkReport (Aborted (length before) (title t) e)
             (map title before ++ [title t])%list r2.
Proof.
  intros Hout Hfin Ht. unfold run in *.
  destruct (runFrom_completed before 0 [] _ _ eq_refl Hout (t :: after))
    as [H1 H2].
  rewrite H1, H2, Hfin. simpl. now rewrite Ht.
Qed.

End Pipeline.

Lemma pipeline_stops_at_first_failure_witness :
  run [okTask "T1"; failingTask "T2" "boom"; okTask "T3"]
      Scripted.demoContext (Scripted.start [] false)
  = mkReport (Aborted 1 "T2" "boom") ["T1"; "T2"]
      (mkRun Scripted.demoContext
         (mkSys (Scripted.mkWorld [] [] false) [ESleep 1; ESleep 1])).
Proof.
  exact (pipeline_stops_at_first_failure
           [okTask "T1"] [okTask "T3"] (failingTask "T2" "boom")
           Scripted.demoContext (Scripted.start [] false)
           _ _ "boom" eq_refl eq_refl eq_refl).
Defined.

(** ** The polling loop *)

Lemma matchLine_id_truthy (line id status : string) :
  ClusterLine.matchLine line = Some (id, status) -> Js.truthy id = true.
Proof.
  unfold ClusterLine.matchLine.
  destruct (ClusterLine.plus ClusterLine.isIdChar line) as [[i r1]|] eqn:Hid;
    [|discriminate].
  assert (Ht : Js.truthy i = true).
  { unfold ClusterLine.plus in Hid.
    destruct (ClusterLine.span ClusterLine.isIdChar line) as [run rest].
    destruct (Js.truthy run) eqn:Hrun; [|discriminate].
    now inversion Hid; subst. }
  repeat match goal with
         | |- context [match ?x with Some _ => _ | None => _ end] =>
             destruct x as [[? ?]|]; [|discriminate]
         end.
  intros H. now inversion H; subst.
Qed.

Lemma interpret_ready (db : string) (r : CmdResult) (cid id : string) :
  interpret db r cid = (true, id) ->
  Js.truthy id = true /\ statusOf db r = Some "ready".
Proof.
  unfold interpret, statusOf.
  destruct (exitCode r =? 0)%Z; [|discriminate].
  destruct (findClusterLine db (stdout r)) as [line|]; [|discriminate].
  destruct (Js.truthy line); [|discriminate].
  destruct (ClusterLine.matchLine line) as [[i st]|] eqn:Hm; [|discriminate].
  destruct (String.eqb_spec st "ready") as [->|_]; [|discriminate].
  intros H; inversion H; subst. split; [|reflexivity].
  exact (matchLine_id_truthy _ _ _ Hm).
Qed.

Lemma interpret_other_status (db : string) (r : CmdResult) (cid st : string) :
  statusOf db r = Some st -> st <> "ready" ->
  exists id, interpret db r cid = (false, id).
Proof.
  unfold interpret, statusOf.
  destruct (exitCode r =? 0)%Z; [|discriminate].
  destruct (findClusterLine db (stdout r)) as [line|]; [|discriminate].
  destruct (ClusterLine.matchLine line) as [[i st']|] eqn:Hm; [|discriminate].
  intros H Hne. inversion H; subst st'.
  destruct (Js.truthy line); [|now exists cid].
  destruct (String.eqb_spec st "ready") as [->|_]; [contradiction|].
  now exists i.
Qed.

Lemma interpret_failed_query (db : string) (r : CmdResult) (cid : string) :
  failed r = true -> interpret db r cid = (false, cid).
Proof.
  unfold failed, interpret. now destruct (exitCode r =? 0)%Z.
Qed.

Lemma queries_snoc (org : string) (j : list Event) (e : Event) :
  queries org (j ++ [e]) =
  queries org j + (if isListQuery org e then 1 else 0).
Proof.
  unfold queries. rewrite filter_app, length_app. simpl.
  now destruct (isListQuery org e).
Qed.

Section Polling.

Context {W : Type} {P : Platform W}.
Variables appName orgSlug : string.

Lemma pollLoop_pass (left i : nat) (cid : string) (s : Sys W) :
  pollLoop appName orgSlug (S left) i cid s =
  match pass appName orgSlug i cid s with
  | (Ok (true, c), s') => (Ok (true, c), s')
  | (Ok (false, c), s') => pollLoop appName orgSlug left (S i) c s'
  | (Throw e, s') => (Throw e, s')
  end.
Proof.
  unfold pass. simpl. unfold bind, pause.
  destruct (executeFlyCommand (listArgs orgSlug) silent s) as [[r|e] s1];
    [|reflexivity].
  destruct (interpret (dbName appName) r cid) as [[|] c]; [reflexivity|].
  simpl. destruct (i <? 19)%nat; reflexivity.
Qed.

Lemma pass_ready (i : nat) (cid id : string) (s s' : Sys W) (r : CmdResult) :
  executeFlyCommand (listArgs orgSlug) silent s = (Ok r, s') ->
  interpret (dbName appName) r cid = (true, id) ->
  pass appName orgSlug i cid s = (Ok (true, id), s').
Proof.
  intros He Hi. unfold pass, bind. now rewrite He, Hi.
Qed.

Lemma pass_not_ready (i : nat) (cid id : string) (s s' : Sys W)
  (r : CmdResult) :
  executeFlyCommand (listArgs orgSlug) silent s = (Ok r, s') ->
  interpret (dbName appName) r cid = (false, id) ->
  pass appName orgSlug i cid s = (Ok (false, id), snd (pause i s')).
Proof.
  intros He Hi. unfold pass, bind. rewrite He, Hi.
  unfold pause. destruct (i <? maxRetries - 1)%nat; reflexivity.
Qed.

Lemma executeFlyCommand_journal (a : list string) (o : FlyOptions)
  (s s' : Sys W) (res : Res CmdResult) :
  executeFlyCommand a o s = (res, s') ->
  exists r, args r = a /\ journal s' = (journal s ++ [ESpawn r])%list.
Proof.
  unfold executeFlyCommand, doSpawn.
  match goal with |- context [spawn ?q _] => set (req := q) end.
  destruct (spawn req (world s)) as [[e|code out err] w]; intros H;
    inversion H; subst; exists req; split; reflexivity.
Qed.

Lemma pass_queries (i : nat) (cid : string) (s s' : Sys W)
  (res : Res (bool * string)) :
  pass appName orgSlug i cid s = (res, s') ->
  queries orgSlug (journal s') = S (queries orgSlug (journal s)).
Proof.
  unfold pass, bind.
  destruct (executeFlyCommand (listArgs orgSlug) silent s) as [x s1] eqn:He.
  destruct (executeFlyCommand_journal _ _ _ _ _ He) as [r [Ha Hj]].
  assert (H1 : queries orgSlug (journal s1) = S (queries orgSlug (journal s))).
  { rewrite Hj, queries_snoc. simpl. rewrite Ha. unfold listArgs.
    destruct (list_eq_dec string_dec _ _); [lia | contradiction]. }
  destruct x as [r0|e]; [|intros H; now inversion H; subst].
  destruct (interpret (dbName appName) r0 cid) as [[|] c].
  - intros H; now inversion H; subst.
  - unfold pause. destruct (i <? maxRetries - 1)%nat; intros H;
      inversion H; subst; simpl; [|assumption].
    rewrite queries_snoc. simpl. lia.
Qed.

Lemma idle_queries (k : nat) :
  forall i cid s c s',
    idle appName orgSlug k i cid s = Some (c, s') ->
    queries orgSlug (journal s') = queries orgSlug (journal s) + k.
Proof.
  induction k as [|k IH]; intros i cid s c s' H; simpl in H.
  - inversion H; subst. lia.
  - destruct (pass appName orgSlug i cid s) as [[[[|] c1]|e] s1] eqn:Hp; try discriminate.
    rewrite (IH _ _ _ _ _ H), (pass_queries _ _ _ _ _ Hp). lia.
Qed.

(** After [k] idle appName orgSlug passes the loop is where it would be had it started
    there. *)
Lemma pollLoop_idle (k : nat) :
  forall left i cid s c s',
    idle appName orgSlug k i cid s = Some (c, s') ->
    pollLoop appName orgSlug (k + left) i cid s
    = pollLoop appName orgSlug left (i + k) c s'.
Proof.
  induction k as [|k IH]; intros left i cid s c s' H; simpl in H.
  - inversion H; subst. now rewrite Nat.add_0_r.
  - replace (S k + left) with (S (k + left)) by lia.
    rewrite pollLoop_pass.
    destruct (pass appName orgSlug i cid s) as [[[[|] c1]|e] s1]; try discriminate.
    rewrite (IH _ _ _ _ _ _ H). f_equal. lia.
Qed.

Lemma idle_snoc (k : nat) :
  forall i cid s c s' c' s'',
    idle appName orgSlug k i cid s = Some (c, s') ->
    pass appName orgSlug (i + k) c s' = (Ok (false, c'), s'') ->
    idle appName orgSlug (S k) i cid s = Some (c', s'').
Proof.
  induction k as [|k IH]; intros i cid s c s' c' s'' H Hp.
  - simpl in H. inversion H; subst. rewrite Nat.add_0_r in Hp.
    simpl. now rewrite Hp.
  - change (idle appName orgSlug (S (S k)) i cid s) with
      (match pass appName orgSlug i cid s with
       | (Ok (false, c1), s1) => idle appName orgSlug (S k) (S i) c1 s1
       | _ => None
       end).
    simpl in H.
    destruct (pass appName orgSlug i cid s) as [[[[|] c1]|e] s1]; try discriminate.
    apply (IH _ _ _ _ _ _ _ H).
    now replace (S i + k) with (i + S k) by lia.
Qed.

(** The loop ends without [ready] only after every pass that remained. *)
Lemma pollLoop_not_ready (left : nat) :
  forall i cid s c s',
    pollLoop appName orgSlug left i cid s = (Ok (false, c), s') ->
    idle appName orgSlug left i cid s = Some (c, s').
Proof.
  induction left as [|left IH]; intros i cid s c s' H.
  - simpl in H. now inversion H.
  - rewrite pollLoop_pass in H. cbn [idle].
    destruct (pass appName orgSlug i cid s) as [[[[|] c1]|e] s1];
      try discriminate.
    exact (IH _ _ _ _ _ H).
Qed.

Lemma pollLoop_resume (k : nat) (s : Sys W) (c : string) (s' : Sys W) :
  k <= maxRetries ->
  idle appName orgSlug k 0 "" s = Some (c, s') ->
  pollLoop appName orgSlug maxRetries 0 "" s
  = pollLoop appName orgSlug (maxRetries - k) k c s'.
Proof.
  intros Hk H.
  replace maxRetries with (k + (maxRetries - k)) at 1 by lia.
  now rewrite (pollLoop_idle _ _ _ _ _ _ _ H).
Qed.

Lemma pgAwait_polled (s0 : Sys W) (res : Res (bool * string)) (s' : Sys W) :
  pollLoop appName orgSlug maxRetries 0 "" (settled s0) = (res, s') ->
  pgAwait appName orgSlug s0 =
  match res with
  | Ok (clusterReady, clusterId) =>
      if negb clusterReady || negb (Js.truthy clusterId)
      then (Throw (notReadyMessage appName orgSlug), s')
      else (Ok clusterId, s')
  | Throw e => (Throw e, s')
  end.
Proof.
  intros H. unfold pgAwait, bind, settled in *. simpl in *. rewrite H.
  destruct res as [[b c]|e]; [|reflexivity].
  now destruct (negb b || negb (Js.truthy c)).
Qed.

Lemma pgAwait_exhausted (s0 : Sys W) (c : string) (s' : Sys W) :
  idle appName orgSlug maxRetries 0 "" (settled s0) = Some (c, s') ->
  pgAwait appName orgSlug s0 = (Throw (notReadyMessage appName orgSlug), s').
Proof.
  intros H.
  assert (Hp : pollLoop appName orgSlug maxRetries 0 "" (settled s0)
               = (Ok (false, c), s')).
  { rewrite (pollLoop_resume maxRetries _ _ _ (le_n _) H).
    now rewrite Nat.sub_diag. }
  now rewrite (pgAwait_polled _ _ _ Hp).
Qed.

End Polling.

(** C6. When the passes before attempt [k] (counted from 0, [k] below the
    budget of 20) are not ready and the status read at attempt [k] is
    [ready], the loop returns on that attempt with the identifier of the
    cluster taken from the line, and [provisionPostgres]'s wait resolves
    with it: the system is left as the query of attempt [k] left it, after
    [k + 1] status queries in all, so no further query is issued. *)
Theorem poll_returns_at_first_ready {W : Type} {P : Platform W}
  (appName orgSlug : string) (k : nat) (s0 s_k s' : Sys W)
  (cid_k id : string) (r : CmdResult) :
  k < maxRetries ->
  idle appName orgSlug k 0 "" (settled s0) = Some (cid_k, s_k) ->
  executeFlyCommand (listArgs orgSlug) silent s_k = (Ok r, s') ->
  interpret (dbName appName) r cid_k = (true, id) ->
  pollLoop appName orgSlug maxRetries 0 "" (settled s0) = (Ok (true, id), s')
  /\ pgAwait appName orgSlug s0 = (Ok id, s')
  /\ queries orgSlug (journal s')
     = queries orgSlug (journal (settled s0)) + S k.
Proof.
  intros Hk Hidle Hexec Hint.
  pose proof (pass_ready appName orgSlug k _ _ _ _ _ Hexec Hint) as Hpass.
  assert (Hloop : pollLoop appName orgSlug maxRetries 0 "" (settled s0)
                  = (Ok (true, id), s')).
  { rewrite (pollLoop_resume appName orgSlug k _ _ _ (Nat.lt_le_incl _ _ Hk) Hidle).
    destruct (maxRetries - k) as [|left] eqn:Hleft; [lia|].
    now rewrite pollLoop_pass, Hpass. }
  split; [exact Hloop|]. split.
  - rewrite (pgAwait_polled _ _ _ _ _ Hloop).
    destruct (interpret_ready _ _ _ _ Hint) as [Ht _]. now rewrite Ht.
  - rewrite (pass_queries _ _ _ _ _ _ _ Hpass).
    rewrite (idle_queries _ _ _ _ _ _ _ _ Hidle). lia.
Qed.

Lemma poll_returns_at_first_ready_witness :
  fst (pgAwait "fare-demo" "personal" readyAtThird) = Ok "abc123"
  /\ queries "personal" (journal (snd (pgAwait "fare-demo" "personal" readyAtThird)))
     = 3.
Proof.
  edestruct (poll_returns_at_first_ready "fare-demo" "personal" 2 readyAtThird)
    as [_ [Hawait Hq]].
  - unfold maxRetries; lia.
  - vm_compute; reflexivity.
  - vm_compute; reflexivity.
  - vm_compute; reflexivity.
  - rewrite Hawait. split; [reflexivity | exact Hq].
Defined.

(** C7. A status query that ends with a non-zero exit code changes nothing
    and does not end the poll: the cluster identifier stays as it was and the
    loop goes on with the next attempt. When none of the 20 attempts is
    ready, the wait issues 20 queries and then throws the error that names
    the cluster and ends with the command to inspect it by hand. *)
Theorem failed_query_is_not_an_abort {W : Type} {P : Platform W}
  (appName orgSlug : string) (k : nat) (s0 s_k s' : Sys W)
  (cid_k : string) (r : CmdResult) :
  k < maxRetries ->
  idle appName orgSlug k 0 "" (settled s0) = Some (cid_k, s_k) ->
  executeFlyCommand (listArgs orgSlug) silent s_k = (Ok r, s') ->
  failed r = true ->
  interpret (dbName appName) r cid_k = (false, cid_k)
  /\ idle appName orgSlug (S k) 0 "" (settled s0)
     = Some (cid_k, snd (pause k s'))
  /\ pollLoop appName orgSlug maxRetries 0 "" (settled s0)
     = pollLoop appName orgSlug (maxRetries - S k) (S k) cid_k
         (snd (pause k s'))
  /\ (forall cid s_end,
        idle appName orgSlug maxRetries 0 "" (settled s0) = Some (cid, s_end) ->
        pgAwait appName orgSlug s0
        = (Throw (notReadyMessage appName orgSlug), s_end)
        /\ queries orgSlug (journal s_end)
           = queries orgSlug (journal (settled s0)) + maxRetries
        /\ notReadyMessage appName orgSlug
           = ("Postgres cluster " ++ dbName appName
              ++ " is not ready after 60 seconds. ")
             ++ "Check with: fly mpg list --org " ++ orgSlug)
  /\ (forall cid s_end,
        pollLoop appName orgSlug maxRetries 0 "" (settled s0)
        = (Ok (false, cid), s_end) ->
        idle appName orgSlug maxRetries 0 "" (settled s0) = Some (cid, s_end)).
Proof.
  intros Hk Hidle Hexec Hfail.
  pose proof (interpret_failed_query (dbName appName) r cid_k Hfail) as Hint.
  pose proof (pass_not_ready appName orgSlug k _ _ _ _ _ Hexec Hint) as Hpass.
  pose proof (idle_snoc appName orgSlug k 0 _ _ _ _ _ _ Hidle Hpass) as Hnext.
  repeat split.
  - exact Hint.
  - exact Hnext.
  - now apply pollLoop_resume.
  - now apply pgAwait_exhausted with cid.
  - exact (idle_queries _ _ _ _ _ _ _ _ H).
  - unfold notReadyMessage. rewrite !append_assoc. reflexivity.
  - apply pollLoop_not_ready.
Qed.

Lemma failed_query_is_not_an_abort_witness :
  idle "fare-demo" "personal" 1 0 "" (settled firstQueryFails)
  = Some ("", snd (pause 0 (snd (executeFlyCommand (listArgs "personal") silent
                                   (settled firstQueryFails)))))
  /\ fst (pgAwait "fare-demo" "personal" firstQueryFails)
     = Throw "Postgres cluster fare-demo-db is not ready after 60 seconds. Check with: fly mpg list --org personal"
  /\ queries "personal"
       (journal (snd (pgAwait "fare-demo" "personal" firstQueryFails))) = 20.
Proof.
  edestruct (failed_query_is_not_an_abort "fare-demo" "personal" 0
               firstQueryFails) as [_ [Hnext [_ [Hend _]]]].
  - unfold maxRetries; lia.
  - vm_compute; reflexivity.
  - vm_compute; reflexivity.
  - vm_compute; reflexivity.
  - split; [exact Hnext|].
    edestruct Hend as [Hawait [Hq _]]; [vm_compute; reflexivity|].
    rewrite Hawait. split; [reflexivity | exact Hq].
Defined.

(** C1, as the code has it. The loop knows one status, [ready]. A query that
    succeeds with any other status word, a failure status included, does not
    end the poll: the identifier of the line is kept and the loop goes on with
    the next attempt; when the attempts run out the wait throws the not-ready
    error, the one failure it has. *)
Theorem other_status_keeps_polling {W : Type} {P : Platform W}
  (appName orgSlug : string) (k : nat) (s0 s_k s' : Sys W)
  (cid_k status : string) (r : CmdResult) :
  k < maxRetries ->
  idle appName orgSlug k 0 "" (settled s0) = Some (cid_k, s_k) ->
  executeFlyCommand (listArgs orgSlug) silent s_k = (Ok r, s') ->
  statusOf (dbName appName) r = Some status ->
  status <> "ready" ->
  exists id,
    interpret (dbName appName) r cid_k = (false, id)
    /\ idle appName orgSlug (S k) 0 "" (settled s0)
       = Some (id, snd (pause k s'))
    /\ pollLoop appName orgSlug maxRetries 0 "" (settled s0)
       = pollLoop appName orgSlug (maxRetries - S k) (S k) id
           (snd (pause k s'))
    /\ (forall cid s_end,
          idle appName orgSlug maxRetries 0 "" (settled s0)
          = Some (cid, s_end) ->
          pgAwait appName orgSlug s0
          = (Throw (notReadyMessage appName orgSlug), s_end)
          /\ queries orgSlug (journal s_end)
             = queries orgSlug (journal (settled s0)) + maxRetries).
Proof.
  intros Hk Hidle Hexec Hst Hne.
  destruct (interpret_other_status _ _ cid_k _ Hst Hne) as [id Hint].
  pose proof (pass_not_ready appName orgSlug k _ _ _ _ _ Hexec Hint) as Hpass.
  pose proof (idle_snoc appName orgSlug k 0 _ _ _ _ _ _ Hidle Hpass) as Hnext.
  exists id. repeat split.
  - exact Hint.
  - exact Hnext.
  - now apply pollLoop_resume.
  - now apply pgAwait_exhausted with cid.
  - exact (idle_queries _ _ _ _ _ _ _ _ H).
Qed.

Lemma other_status_keeps_polling_witness :
  fst (pgAwait "fare-demo" "personal" alwaysFailed)
  = Throw (notReadyMessage "fare-demo" "personal")
  /\ queries "personal"
       (journal (snd (pgAwait "fare-demo" "personal" alwaysFailed))) = 20.
Proof.
  edestruct (other_status_keeps_polling "fare-demo" "personal" 0 alwaysFailed)
    as [id [_ [_ [_ Hend]]]].
  - unfold maxRetries; lia.
  - vm_compute; reflexivity.
  - vm_compute; reflexivity.
  - vm_compute; reflexivity.
  - discriminate.
  - edestruct Hend as [Hawait Hq]; [vm_compute; reflexivity|].
    rewrite Hawait. split; [reflexivity | exact Hq].
Defined.

(** C1, the counterexample. The first query succeeds and shows the status
    [failed]: the poll does not return a failure on that attempt. With
    [failed] at every query it issues all 20 queries and ends with the
    not-ready error of an exhausted budget; with [ready] at the second query
    it resolves with the cluster identifier. *)
Lemma failed_status_is_polled_past :
  statusOf (dbName "fare-demo")
    (onClose true (Some 0%Z) (Scripted.tableLine "failed") "") = Some "failed"
  /\ fst (pgAwait "fare-demo" "personal" alwaysFailed)
     = Throw "Postgres cluster fare-demo-db is not ready after 60 seconds. Check with: fly mpg list --org personal"
  /\ queries "personal"
       (journal (snd (pgAwait "fare-demo" "personal" alwaysFailed))) = 20
  /\ fst (pgAwait "fare-demo" "personal" failedThenReady) = Ok "abc123"
  /\ queries "personal"
       (journal (snd (pgAwait "fare-demo" "personal" failedThenReady))) = 2.
Proof. vm_compute. repeat split; reflexivity. Qed.

(** ** The phases of [provisionPostgres] *)

Section Phases.

Context {W : Type} {P : Platform W}.



Lemma provisionPostgres_after_create (appName orgSlug region : string)
  (s s1 : Sys W) :
  pgCreate appName orgSlug region s = (Ok tt, s1) ->
  provisionPostgres appName orgSlug region s
  = (clusterId <- pgAwait appName orgSlug ;;
     pgAttach clusterId appName ;;
     pgExtract clusterId) s1.
Proof.
  intros Hc. unfold provisionPostgres. unfold bind at 1. now rewrite Hc.
Qed.

Lemma provisionPostgres_not_ready (appName orgSlug region : string)
  (s s1 s2 : Sys W) (cid : string) :
  pgCreate appName orgSlug region s = (Ok tt, s1) ->
  idle appName orgSlug maxRetries 0 "" (settled s1) = Some (cid, s2) ->
  provisionPostgres appName orgSlug region s
  = (Throw (notReadyMessage appName orgSlug), s2).
Proof.
  intros Hc Hi. rewrite (provisionPostgres_after_create _ _ _ _ _ Hc).
  unfold bind at 1. now rewrite (pgAwait_exhausted _ _ _ _ _ Hi).
Qed.




End Phases.




(** ** The clone *)

(** C10, as the code has it. After the directory of the casinos is ensured
    and the casino is found absent, a clone that ends with exit code 0 makes
    [cloneCasinoBackend] resolve with the casino path, and the directory git
    created exists. A clone that ends with any other code, or none, makes it
    attempt the removal of the directory and then throw the failure with the
    code and the output of git; an error of the removal is ignored, so the
    directory is known to be absent afterwards when the removal succeeded.
    The two assumptions on the platform say what a successful removal and a
    successful clone do to the file system. *)
Theorem clone_removes_directory_when_removal_succeeds
  {W : Type} {P : Platform W} (name : string) (s : Sys W) (w1 w2 : W)
  (code : option Z) (out err : string) :
  let path := getCasinoPath name in
  let req := mkSpawn "git" (cloneArgs path) None None true false in
  (forall w w', fsRm path w = (None, w') -> fsAccess path w' = false) ->
  (forall w w' o e,
      spawn req w = (ProcClose (Some 0%Z) o e, w') -> fsAccess path w' = true) ->
  fsMkdir CASINOS_DIR (world s) = (None, w1) ->
  fsAccess path w1 = false ->
  spawn req w1 = (ProcClose code out err, w2) ->
  (code = Some 0%Z ->
   exists s', cloneCasinoBackend name s = (Ok path, s')
              /\ casinoExists name s' = (Ok true, s'))
  /\ (code <> Some 0%Z ->
      exists s',
        cloneCasinoBackend name s
        = (Throw ("Failed to clone repository (exit code " ++ Js.ofCode code
                  ++ "): " ++ err), s')
        /\ journal s'
           = (journal s ++ [EMkdir CASINOS_DIR; ESpawn req; ERm path])%list
        /\ (forall w3, fsRm path w2 = (None, w3) ->
                       casinoExists name s' = (Ok false, s'))).
Proof.
  intros path req Hrm Hgit Hmk Habsent Hspawn. subst path req.
  set (s2 := record (ESpawn (mkSpawn "git" (cloneArgs (getCasinoPath name))
                               None None true false))
               w2 (record (EMkdir CASINOS_DIR) w1 s)).
  assert (Hrun : cloneCasinoBackend name s
                 = match code with
                   | Some 0%Z => (Ok (getCasinoPath name), s2)
                   | _ =>
                       (Throw ("Failed to clone repository (exit code "
                               ++ Js.ofCode code ++ "): " ++ err),
                        record (ERm (getCasinoPath name))
                               (snd (fsRm (getCasinoPath name) w2)) s2)
                   end).
  { unfold cloneCasinoBackend, ensureCasinosDirectory, casinoExists, bind,
      doSpawn, removeQuietly, throw.
    rewrite Hmk. cbn [world record]. rewrite Habsent.
    cbv beta iota. cbn [world record]. rewrite Hspawn.
    destruct code as [[|p|p]|]; cbn [world record]; try reflexivity;
      destruct (fsRm (getCasinoPath name) w2) as [res w3]; reflexivity. }
  split.
  - intros ->. exists s2. split; [exact Hrun|].
    unfold casinoExists. cbn [world record s2].
    now rewrite (Hgit _ _ _ _ Hspawn).
  - intros Hcode. eexists. split; [|split].
    + rewrite Hrun. destruct code as [[|p|p]|]; try reflexivity.
      now contradiction Hcode.
    + cbn [journal record s2]. rewrite <- !app_assoc. reflexivity.
    + intros w3 Hok. unfold casinoExists. cbn [world record].
      rewrite Hok. cbn [snd]. now rewrite (Hrm _ _ Hok).
Qed.

Lemma scripted_removal (p : string) (w w' : Scripted.World) :
  Scripted.rm p w = (None, w') -> Scripted.exists_ p w' = false.
Proof.
  unfold Scripted.rm, Scripted.exists_.
  destruct (Scripted.removalFails w); [discriminate|].
  intros H; inversion H; subst; simpl. clear H.
  induction (Scripted.paths w) as [|q l IH]; simpl; [reflexivity|].
  destruct (String.eqb_spec p q) as [->|Hne]; simpl; [exact IH|].
  destruct (String.eqb_spec p q); [contradiction | exact IH].
Qed.

Lemma scripted_clone (path : string) (w w' : Scripted.World)
  (code : option Z) (o e : string) :
  Scripted.spawn (mkSpawn "git" (cloneArgs path) None None true false) w
  = (ProcClose code o e, w') ->
  Scripted.exists_ path w' = true.
Proof.
  unfold Scripted.spawn. intros H; inversion H as [[Ho Hw]].
  unfold Scripted.exists_. rewrite Ho. simpl. now rewrite String.eqb_refl.
Qed.

Lemma clone_removes_directory_when_removal_succeeds_witness :
  fst (cloneCasinoBackend "demo" (cloneFails false))
  = Throw "Failed to clone repository (exit code 128): fatal: unable to access the repository"
  /\ fst (casinoExists "demo" (snd (cloneCasinoBackend "demo" (cloneFails false))))
     = Ok false.
Proof.
  edestruct (clone_removes_directory_when_removal_succeeds
               "demo" (cloneFails false)) as [_ Hfail].
  - intros w w'. apply scripted_removal.
  - intros w w' o e. apply scripted_clone.
  - reflexivity.
  - reflexivity.
  - reflexivity.
  - destruct Hfail as [s' [Hrun [_ Hgone]]]; [discriminate|].
    rewrite Hrun. cbn [fst snd]. rewrite (Hgone _ eq_refl).
    split; reflexivity.
Defined.

(** C10, the counterexample. The clone ends with exit code 128 and the
    removal of the partial directory fails: [cloneCasinoBackend] throws the
    failure of the clone, and the directory of the casino still exists. *)
Lemma failed_clone_can_leave_directory :
  fst (cloneCasinoBackend "demo" (cloneFails true))
  = Throw "Failed to clone repository (exit code 128): fatal: unable to access the repository"
  /\ fst (casinoExists "demo" (snd (cloneCasinoBackend "demo" (cloneFails true))))
     = Ok true.
Proof. vm_compute. split; reflexivity. Qed.

(** ** The context during a run *)

Lemma Field_eq_dec (f g : Field) : {f = g} + {f <> g}.
Proof. decide equality. Defined.

Section Frames.

Context {W : Type} {P : Platform W}.

Lemma keeps_read (f : Field) {A : Type} (g : InitContext -> A) :
  keeps (W:=W) f (read g).
Proof. intros r res r' H. now inversion H. Qed.

Lemma keeps_await (f : Field) {A : Type} (m : M (Sys W) A) :
  keeps f (await m).
Proof.
  intros r res r' H. unfold await in H.
  destruct (m (sys r)) as [a s]. now inversion H.
Qed.

Lemma keeps_throw (f : Field) {A : Type} (e : string) :
  keeps f (@throw (Run W) A e).
Proof. intros r res r' H. now inversion H. Qed.

Lemma keeps_assign (f : Field) (g : InitContext -> InitContext) :
  (forall c, get f (g c) = get f c) -> keeps (W:=W) f (assign g).
Proof. intros Hg r res r' H. inversion H; subst. apply Hg. Qed.

Lemma keeps_bind (f : Field) {A B : Type} (m : M (Run W) A)
  (k : A -> M (Run W) B) :
  keeps f m -> (forall a, keeps f (k a)) -> keeps f (bind m k).
Proof.
  intros Hm Hk r res r' H. unfold bind in H.
  destruct (m r) as [[a|e] r1] eqn:Hr.
  - rewrite (Hk a _ _ _ H). exact (Hm _ _ _ Hr).
  - inversion H; subst. exact (Hm _ _ _ Hr).
Qed.

Lemma runFrom_keeps (f : Field) (tasks : list (Task W)) :
  Forall (fun t => keeps f (task t)) tasks ->
  forall i done r,
    get f (ctx (final (runFrom i tasks done r))) = get f (ctx r).
Proof.
  induction 1 as [|t rest Ht _ IH]; intros i done r; simpl; [reflexivity|].
  destruct (task t r) as [[u|e] r'] eqn:Hr.
  - rewrite IH. exact (Ht _ _ _ Hr).
  - simpl. exact (Ht _ _ _ Hr).
Qed.

Lemma last_cons_default {A : Type} (l : list A) :
  forall x d d', last (x :: l) d = last (x :: l) d'.
Proof.
  induction l as [|y l IH]; intros x d d'; [reflexivity|].
  change (last (y :: l) d = last (y :: l) d'). apply IH.
Qed.

Lemma history_last (tasks : list (Task W)) :
  forall i done r,
    last (history tasks r) (ctx r) = ctx (final (runFrom i tasks done r)).
Proof.
  induction tasks as [|t rest IH]; intros i done r; [reflexivity|].
  cbn [history runFrom].
  destruct (task t r) as [[u|e] r']; [|reflexivity].
  rewrite <- (IH (S i) (done ++ [title t])%list r').
  destruct rest; cbn [history]; [reflexivity|].
  match goal with
  | |- last (_ :: ?x :: ?l) _ = _ =>
      change (last (x :: l) (ctx r) = last (x :: l) (ctx r'))
  end.
  apply last_cons_default.
Qed.

End Frames.

Create HintDb frame.
#[global] Hint Resolve keeps_read keeps_await keeps_throw : frame.

(** Settles [keeps f m] for a task body [m] and a field it does not assign. *)
Ltac frame :=
  repeat (apply keeps_bind; [|intros ?]);
  auto with frame;
  try (apply keeps_assign; intros ?; reflexivity).

Section InitFrames.

Context {W : Type} {P : Platform W}.

(** Every task of [initTasks] leaves alone the fields it is not listed to
    assign. *)
Lemma initTasks_respect_writes :
  Forall2 (fun (t : Task W) fp => forall f, ~ In f fp -> keeps f (task t))
          initTasks writes.
Proof.
  unfold initTasks, writes.
  repeat (apply Forall2_cons;
          [ intros f Hf;
            unfold cloneTask, installTask, prismaTask, buildTask, appTask,
              redisTask, tigrisTask, postgresTask, configTask, secretsTask,
              deployTask;
            cbn [task];
            destruct f; try (exfalso; apply Hf; simpl; tauto); frame
          | ]).
  apply Forall2_nil.
Qed.

Lemma writes_disjoint : NoDup (concat writes).
Proof.
  unfold writes. simpl.
  repeat constructor; simpl; intuition discriminate.
Qed.

End InitFrames.

Section WriteOnce.

Context {W : Type}.

Lemma history_head (tasks : list (Task W)) (r : Run W) :
  exists l, history tasks r = ctx r :: l.
Proof. destruct tasks; eexists; reflexivity. Qed.

(** A field that no task assigns has one value through the run. *)
Lemma history_stable (f : Field) (tasks : list (Task W))
  (fps : list (list Field)) :
  Respect tasks fps -> ~ In f (concat fps) ->
  forall r c, In c (history tasks r) -> get f c = get f (ctx r).
Proof.
  induction 1 as [|t fp rest fps' Ht _ IH]; intros Hf r c Hin.
  - simpl in Hin. destruct Hin as [<-|[]]. reflexivity.
  - simpl in Hf. rewrite in_app_iff in Hf.
    cbn [history] in Hin. destruct Hin as [<-|Hin]; [reflexivity|].
    destruct (task t r) as [[u|e] r'] eqn:Hr.
    + rewrite (IH (fun H => Hf (or_intror H)) _ _ Hin).
      exact (Ht f (fun H => Hf (or_introl H)) _ _ _ Hr).
    + destruct Hin as [<-|[]].
      exact (Ht f (fun H => Hf (or_introl H)) _ _ _ Hr).
Qed.

(** When no field is listed for two tasks, a field that a step changed has
    the value that step gave it in every later context of the run. *)
Lemma history_write_once (f : Field) (tasks : list (Task W))
  (fps : list (list Field)) :
  Respect tasks fps -> NoDup (concat fps) ->
  forall r i j before after later,
    nth_error (history tasks r) i = Some before ->
    nth_error (history tasks r) (S i) = Some after ->
    get f before <> get f after ->
    S i <= j ->
    nth_error (history tasks r) j = Some later ->
    get f later = get f after.
Proof.
  induction 1 as [|t fp rest fps' Ht Hrest IH];
    intros Hnd r i j before after later Hi HSi Hch Hij Hj.
  - simpl in HSi. destruct i; discriminate.
  - simpl in Hnd.
    destruct j as [|j]; [lia|].
    cbn [history] in Hi, HSi, Hj. cbn [nth_error] in HSi, Hj.
    destruct i as [|i].
    + cbn [nth_error] in Hi. inversion Hi; subst before. clear Hi.
      assert (Hin : In f fp).
      { destruct (in_dec Field_eq_dec f fp) as [Hin|Hout]; [exact Hin|].
        exfalso. apply Hch.
        destruct (task t r) as [[u|e] r'] eqn:Hr.
        - destruct (history_head rest r') as [l Hl]. rewrite Hl in HSi.
          inversion HSi; subst after. symmetry.
          exact (Ht f Hout _ _ _ Hr).
        - inversion HSi; subst after. symmetry.
          exact (Ht f Hout _ _ _ Hr). }
      assert (Hout : ~ In f (concat fps')).
      { intros Hc. clear - Hnd Hin Hc.
        induction fp as [|g fp IHfp]; [contradiction|].
        simpl in Hnd. inversion Hnd as [|? ? Hng Hnd']; subst.
        destruct Hin as [->|Hin].
        - apply Hng. apply in_or_app. now right.
        - now apply IHfp. }
      destruct (task t r) as [[u|e] r'] eqn:Hr.
      * destruct (history_head rest r') as [l Hl].
        assert (Ha : after = ctx r').
        { rewrite Hl in HSi. now inversion HSi. }
        subst after.
        apply (history_stable f rest fps' Hrest Hout r').
        exact (nth_error_In _ _ Hj).
      * inversion HSi; subst after.
        destruct j as [|j]; [now inversion Hj|].
        destruct j; discriminate.
    + cbn [nth_error] in Hi.
      assert (Hnd' : NoDup (concat fps')).
      { clear - Hnd. induction fp as [|g fp IHfp]; [exact Hnd|].
        simpl in Hnd. inversion Hnd; subst. now apply IHfp. }
      destruct (task t r) as [[u|e] r'] eqn:Hr.
      * apply (IH Hnd' r' i j before after later Hi HSi Hch); [lia | exact Hj].
      * destruct i; discriminate.
Qed.

End WriteOnce.

(** C9. Along a run of the task list, a context field that a step changed
    keeps the value that step gave it in every later context of the run, the
    context at an abort included: the casino path, the cache URL, the
    storage bucket, the database URL and the two copies of the database
    password are each assigned by one task, and the other fields by none.
    The last context of the history is the context the run ends with. *)
Theorem context_fields_are_write_once {W : Type} {P : Platform W}
  (context : InitContext) (s : Sys W) (i j : nat)
  (before after later : InitContext) (f : Field) :
  let contexts := history initTasks (mkRun context s) in
  nth_error contexts i = Some before ->
  nth_error contexts (S i) = Some after ->
  get f before <> get f after ->
  S i <= j ->
  nth_error contexts j = Some later ->
  get f later = get f after
  /\ last contexts context = ctx (final (initPipeline context s)).
Proof.
  intros contexts Hi HSi Hch Hij Hj. split.
  - exact (history_write_once f initTasks writes initTasks_respect_writes
             writes_disjoint _ i j before after later Hi HSi Hch Hij Hj).
  - apply (history_last initTasks 0 [] (mkRun context s)).
Qed.

(** The run of scenario B on the scripted platform: every command exits
    with code 0 and no output, so the cluster never shows in the listing.
    The cache task is the sixth; its URL is still there at the abort. *)
Lemma context_fields_are_write_once_witness :
  get FRedisUrl (ctx (final (initPipeline Scripted.demoContext
                               (Scripted.start [] false))))
  = Some "redis://default:pw@fly-fare-demo-redis.upstash.io".
Proof.
  pose (contexts := history initTasks
                      (mkRun Scripted.demoContext (Scripted.start [] false))).
  assert (H5 : exists c, nth_error contexts 5 = Some c /\ get FRedisUrl c = None).
  { vm_compute. eexists. split; reflexivity. }
  assert (H6 : exists c, nth_error contexts 6 = Some c
                         /\ get FRedisUrl c
                            = Some "redis://default:pw@fly-fare-demo-redis.upstash.io").
  { vm_compute. eexists. split; reflexivity. }
  assert (H8 : nth_error contexts 8
               = Some (last contexts Scripted.demoContext)).
  { vm_compute. reflexivity. }
  destruct H5 as [c5 [H5 Hnone]]. destruct H6 as [c6 [H6 Hsome]].
  assert (Hch : get FRedisUrl c5 <> get FRedisUrl c6).
  { rewrite Hnone, Hsome. discriminate. }
  assert (Hij : 6 <= 8) by lia.
  pose proof (context_fields_are_write_once Scripted.demoContext
                (Scripted.start [] false) 5 8 c5 c6
                (last contexts Scripted.demoContext) FRedisUrl) as HH.
  cbv zeta in HH. specialize (HH H5 H6 Hch Hij H8).
  destruct HH as [Hkept Hlast].
  fold contexts in Hlast. rewrite <- Hlast, Hkept. exact Hsome.
Defined.

(** ** The abort of the database step *)

Section DatabaseAbort.

Context {W : Type} {P : Platform W}.

Lemma respect_unlisted (f : Field) (tasks : list (Task W))
  (fps : list (list Field)) :
  Respect tasks fps -> ~ In f (concat fps) ->
  Forall (fun t => keeps f (task t)) tasks.
Proof.
  induction 1 as [|t fp rest fps' Ht _ IH]; intros Hf; constructor.
  - apply Ht. intros Hin. apply Hf. simpl. apply in_or_app. now left.
  - apply IH. intros Hin. apply Hf. simpl. apply in_or_app. now right.
Qed.

(** The tasks before the database task leave the application name and the
    organization as the run found them. *)
Lemma seeds_kept (f : Field) (n : nat) :
  ~ In f (concat writes) ->
  Forall (fun t : Task W => keeps f (task t)) (firstn n initTasks).
Proof.
  intros Hf.
  pose proof (respect_unlisted f initTasks writes initTasks_respect_writes Hf)
    as Hall.
  rewrite <- (firstn_skipn n initTasks) in Hall.
  apply Forall_app in Hall. exact (proj1 Hall).
Qed.

Lemma provisionTigris_bucket (appName orgSlug region : string)
  (s s' : Sys W) (t : TigrisAccess) :
  provisionTigris appName orgSlug region s = (Ok t, s') ->
  bucketName t = tigrisName appName.
Proof.
  unfold provisionTigris, rethrow, tryCatch, bind, throw, ret.
  destruct (createAddOn Tigris "CreateTigris" (tigrisName appName) appName
              orgSlug region s) as [[[a|]|e] s1]; intros H; inversion H.
  reflexivity.
Qed.

Lemma redisTask_populates (r r' : Run W) (u : unit) :
  task redisTask r = (Ok u, r') ->
  exists url, redisUrl (config (ctx r')) = Some url.
Proof.
  unfold redisTask. cbn [task]. unfold bind, read, await, assign.
  destruct (provisionRedis (flyAppName (ctx r)) (flyOrgSlug (ctx r))
              defaultRegion (sys r)) as [[url|e] s1]; intros H; inversion H.
  now exists url.
Qed.

Lemma tigrisTask_populates (r r' : Run W) (u : unit) :
  task tigrisTask r = (Ok u, r') ->
  tigrisBucket (config (ctx r')) = Some (tigrisName (flyAppName (ctx r))).
Proof.
  unfold tigrisTask. cbn [task]. unfold bind, read, await, assign.
  destruct (provisionTigris (flyAppName (ctx r)) (flyOrgSlug (ctx r))
              defaultRegion (sys r)) as [[t|e] s1] eqn:Ht;
    intros H; inversion H.
  cbn. now rewrite (provisionTigris_bucket _ _ _ _ _ _ Ht).
Qed.

Lemma postgresTask_throws (r : Run W) (e : string) (s' : Sys W) :
  provisionPostgres (flyAppName (ctx r)) (flyOrgSlug (ctx r)) defaultRegion
    (sys r) = (Throw e, s') ->
  task postgresTask r = (Throw e, mkRun (ctx r) s').
Proof.
  intros H. unfold postgresTask. cbn [task].
  unfold bind, read, await. now rewrite H.
Qed.

Lemma initTasks_split :
  initTasks
  = (beforeDatabase ++ postgresTask :: [configTask; secretsTask; deployTask])%list.
Proof. reflexivity. Qed.

(** What a completed run of the first seven tasks leaves in the context. *)
Lemma beforeDatabase_completed (context : InitContext) (s : Sys W) :
  outcome (run beforeDatabase context s) = Completed ->
  let c := ctx (final (run beforeDatabase context s)) in
  flyAppName c = flyAppName context
  /\ flyOrgSlug c = flyOrgSlug context
  /\ (exists url, redisUrl (config c) = Some url)
  /\ tigrisBucket (config c) = Some (tigrisName (flyAppName context)).
Proof.
  intros Hout c.
  assert (Hseed : forall f, ~ In f (concat writes) ->
                            get f c = get f context).
  { intros f Hf. unfold c, run.
    exact (runFrom_keeps f _ (seeds_kept f 7 Hf) 0 [] (mkRun context s)). }
  assert (Happ : flyAppName c = flyAppName context).
  { assert (H : get FFlyAppName c = get FFlyAppName context).
    { apply Hseed. simpl. intuition discriminate. }
    now inversion H. }
  assert (Horg : flyOrgSlug c = flyOrgSlug context).
  { assert (H : get FFlyOrgSlug c = get FFlyOrgSlug context).
    { apply Hseed. simpl. intuition discriminate. }
    now inversion H. }
  split; [exact Happ|]. split; [exact Horg|].
  unfold c. clear c Hseed Happ Horg.
  unfold run, beforeDatabase, initTasks in *. cbn [firstn runFrom] in *.
  destruct (task cloneTask (mkRun context s)) as [[u1|e1] r1] eqn:H1;
    [|discriminate].
  destruct (task installTask r1) as [[u2|e2] r2] eqn:H2; [|discriminate].
  destruct (task prismaTask r2) as [[u3|e3] r3] eqn:H3; [|discriminate].
  destruct (task buildTask r3) as [[u4|e4] r4] eqn:H4; [|discriminate].
  destruct (task appTask r4) as [[u5|e5] r5] eqn:H5; [|discriminate].
  destruct (task redisTask r5) as [[u6|e6] r6] eqn:H6; [|discriminate].
  destruct (task tigrisTask r6) as [[u7|e7] r7] eqn:H7; [|discriminate].
  cbn [final].
  assert (Hkeep : forall f (t : Task W) ra res rb,
             In t [cloneTask; installTask; prismaTask; buildTask; appTask;
                   redisTask; tigrisTask] ->
             ~ In f (concat writes) ->
             task t ra = (res, rb) -> get f (ctx rb) = get f (ctx ra)).
  { intros f t ra res rb Hin Hf Ht.
    pose proof (seeds_kept f 7 Hf) as Hall.
    rewrite Forall_forall in Hall. exact (Hall t Hin _ _ _ Ht). }
  split.
  - destruct (redisTask_populates _ _ _ H6) as [url Hurl].
    exists url.
    assert (Hk : keeps FRedisUrl (task (tigrisTask (W:=W)))).
    { unfold tigrisTask. cbn [task]. frame. }
    exact (eq_trans (Hk _ _ _ H7) Hurl).
  - rewrite (tigrisTask_populates _ _ _ H7). do 2 f_equal.
    assert (Hname : forall a b : Run W,
               get FFlyAppName (ctx a) = get FFlyAppName (ctx b) ->
               flyAppName (ctx a) = flyAppName (ctx b)).
    { intros a b H. now inversion H. }
    assert (Hf : ~ In FFlyAppName (concat writes)).
    { simpl. intuition discriminate. }
    rewrite (Hname r6 r5), (Hname r5 r4), (Hname r4 r3), (Hname r3 r2),
      (Hname r2 r1), (Hname r1 (mkRun context s)); [reflexivity | ..];
      eapply Hkeep; try exact Hf; try eassumption; simpl; tauto.
Qed.

End DatabaseAbort.

(** C5. When the seven tasks before it complete, the cluster is created and
    none of the 20 status queries shows it ready, the database task throws
    the not-ready error and the pipeline aborts at that task: the failure
    carries its index and title and the message that names the cluster and
    the command to inspect it; the tasks after it are not invoked. The
    context at the abort is the context the seventh task left, field for
    field: its cache URL is populated and its storage bucket is the name
    derived from the application. *)
Theorem database_timeout_aborts_and_keeps_context
  {W : Type} {P : Platform W} (context : InitContext) (s s8 s9 : Sys W)
  (r7 : Run W) (cid : string) :
  let app := flyAppName context in
  let org := flyOrgSlug context in
  outcome (run beforeDatabase context s) = Completed ->
  final (run beforeDatabase context s) = r7 ->
  pgCreate app org defaultRegion (sys r7) = (Ok tt, s8) ->
  idle app org maxRetries 0 "" (settled s8) = Some (cid, s9) ->
  initPipeline context s
  = mkReport (Aborted 7 "Provisioning Postgres database"
                (notReadyMessage app org))
             (map title beforeDatabase ++ ["Provisioning Postgres database"])%list
             (mkRun (ctx r7) s9)
  /\ (exists url, redisUrl (config (ctx r7)) = Some url)
  /\ tigrisBucket (config (ctx r7)) = Some (tigrisName app)
  /\ queries org (journal s9) = queries org (journal (settled s8)) + maxRetries.
Proof.
  intros app org Hout Hfin Hcreate Hidle.
  destruct (beforeDatabase_completed context s Hout)
    as [Happ [Horg [Hredis Htigris]]].
  rewrite Hfin in Happ, Horg, Hredis, Htigris.
  split; [|split; [exact Hredis | split; [exact Htigris|]]].
  - assert (Htask : task postgresTask r7
                    = (Throw (notReadyMessage app org), mkRun (ctx r7) s9)).
    { apply postgresTask_throws. rewrite Happ, Horg.
      exact (provisionPostgres_not_ready _ _ _ _ _ _ _ Hcreate Hidle). }
    unfold initPipeline, run in *. rewrite initTasks_split.
    destruct (runFrom_completed beforeDatabase 0 [] _ _ eq_refl Hout
                (postgresTask :: [configTask; secretsTask; deployTask]))
      as [H1 H2].
    rewrite H1, H2, Hfin. cbn [runFrom]. rewrite Htask. reflexivity.
  - exact (idle_queries _ _ _ _ _ _ _ _ Hidle).
Qed.

(** Scenario B on the scripted platform: every command exits with code 0
    and writes nothing, so the cluster never shows in the listing. *)
Lemma database_timeout_aborts_and_keeps_context_witness :
  outcome (initPipeline Scripted.demoContext (Scripted.start [] false))
  = Aborted 7 "Provisioning Postgres database"
      "Postgres cluster fare-demo-db is not ready after 60 seconds. Check with: fly mpg list --org personal"
  /\ tigrisBucket (config (ctx (final (run beforeDatabase Scripted.demoContext
                                         (Scripted.start [] false)))))
     = Some "fare-demo-storage".
Proof.
  edestruct (database_timeout_aborts_and_keeps_context
               Scripted.demoContext (Scripted.start [] false))
    as [Hrun [_ [Hbucket _]]].
  - vm_compute; reflexivity.
  - reflexivity.
  - vm_compute; reflexivity.
  - vm_compute; reflexivity.
  - rewrite Hrun. split; [reflexivity | exact Hbucket].
Defined.

(** * Further properties *)

(** ** The casino name and the names derived from it *)

Lemma all_append (p : ascii -> bool) (a b : string) :
  Str.all p (a ++ b) = Str.all p a && Str.all p b.
Proof.
  induction a as [|c a IH]; simpl; [reflexivity|].
  now rewrite IH, andb_assoc.
Qed.

Lemma all_impl (p q : ascii -> bool) (s : string) :
  (forall c, p c = true -> q c = true) ->
  Str.all p s = true -> Str.all q s = true.
Proof.
  intros Hpq. induction s as [|c s IH]; simpl; [reflexivity|].
  rewrite !andb_true_iff. intros [Hc Hs]. split; [now apply Hpq | now apply IH].
Qed.

Lemma isNameChar_not_space (c : ascii) :
  isNameChar c = true -> ClusterLine.isNonSpace c = true.
Proof.
  destruct c as [[] [] [] [] [] [] [] []]; vm_compute; congruence.
Qed.

Lemma validateCasinoName_bounds (name : string) :
  validateCasinoName name = Ok tt ->
  3 <= String.length name <= 30 /\ Str.all isNameChar name = true.
Proof.
  unfold validateCasinoName, validNameRegex.
  destruct (Js.truthy name); cbn [negb andb]; [|discriminate].
  destruct (Str.all isNameChar name); cbn [negb]; [|discriminate].
  destruct (String.length name <? 3)%nat eqn:H3; [discriminate|].
  destruct (30 <? String.length name)%nat eqn:H30; [discriminate|].
  apply Nat.ltb_ge in H3, H30. intros _. split; [lia | reflexivity].
Qed.

(** X1. [validateCasinoName] accepts a name exactly when it has between 3
    and 30 characters, 30 included, all of them lowercase letters, digits or
    hyphens, and neither its first nor its last character is a hyphen. *)
Theorem validateCasinoName_accepts (name : string) :
  validateCasinoName name = Ok tt
  <-> (3 <= String.length name <= 30
       /\ Str.all isNameChar name = true
       /\ Js.startsWith "-" name = false
       /\ Str.endsWith "-" name = false).
Proof.
  unfold validateCasinoName, validNameRegex.
  destruct name as [|c name]; [simpl; split; [discriminate | lia]|].
  cbn [Js.truthy negb andb].
  destruct (Str.all isNameChar (String c name)) eqn:Hall; cbn [negb];
    [|split; [discriminate | intros [_ [H _]]; discriminate]].
  destruct (String.length (String c name) <? 3)%nat eqn:H3;
    [apply Nat.ltb_lt in H3; split; [discriminate | lia]|].
  apply Nat.ltb_ge in H3.
  destruct (30 <? String.length (String c name))%nat eqn:H30;
    [apply Nat.ltb_lt in H30; split; [discriminate | lia]|].
  apply Nat.ltb_ge in H30.
  destruct (Js.startsWith "-" (String c name)) eqn:Hs; cbn [orb];
    [split; [discriminate | intros [_ [_ [H _]]]; discriminate]|].
  destruct (Str.endsWith "-" (String c name)) eqn:He;
    [split; [discriminate | intros [_ [_ [_ H]]]; discriminate]|].
  split; [intros _|reflexivity]. repeat split; assumption.
Qed.

Lemma validateCasinoName_accepts_witness :
  validateCasinoName "abcdefghijklmnopqrstuvwxyz0123" = Ok tt
  /\ validateCasinoName "abcdefghijklmnopqrstuvwxyz01234"
     = Throw "Casino name must be less than 30 characters".
Proof.
  split; [|reflexivity].
  apply (proj2 (validateCasinoName_accepts "abcdefghijklmnopqrstuvwxyz0123")).
  vm_compute. repeat split; try reflexivity; lia.
Defined.

(** X2. For a casino name that [validateCasinoName] accepts, the Fly
    application name and the names of the database, the cache and the
    storage are made of lowercase letters, digits and hyphens only, hold no
    white space, and are at most 35, 38, 41 and 43 characters long. *)
Theorem derived_names_are_plain (name : string) :
  validateCasinoName name = Ok tt ->
  let app := generateFlyAppName name in
  Forall (fun n => Str.all isNameChar n = true
                   /\ Str.all ClusterLine.isNonSpace n = true)
         [app; dbName app; redisName app; tigrisName app]
  /\ String.length app <= 35
  /\ String.length (dbName app) <= 38
  /\ String.length (redisName app) <= 41
  /\ String.length (tigrisName app) <= 43.
Proof.
  intros Hok app.
  apply validateCasinoName_bounds in Hok.
  destruct Hok as [[_ Hlen] Hall].
  assert (Happ : Str.all isNameChar app = true).
  { unfold app, generateFlyAppName. rewrite all_append, Hall. reflexivity. }
  assert (Hplain : forall suffix,
             Str.all isNameChar suffix = true ->
             Str.all isNameChar (app ++ suffix) = true
             /\ Str.all ClusterLine.isNonSpace (app ++ suffix) = true).
  { intros suffix Hs.
    assert (H : Str.all isNameChar (app ++ suffix) = true)
      by now rewrite all_append, Happ, Hs.
    split; [exact H|]. exact (all_impl _ _ _ isNameChar_not_space H). }
  assert (Hla : String.length app = 5 + String.length name).
  { unfold app, generateFlyAppName. now rewrite length_append. }
  split.
  - apply Forall_cons;
      [split; [exact Happ | exact (all_impl _ _ _ isNameChar_not_space Happ)]|].
    apply Forall_cons; [apply Hplain; reflexivity|].
    apply Forall_cons; [apply Hplain; reflexivity|].
    apply Forall_cons; [apply Hplain; reflexivity|].
    apply Forall_nil.
  - unfold dbName, redisName, tigrisName. rewrite !length_append, Hla.
    simpl. lia.
Qed.

Lemma derived_names_are_plain_witness :
  Str.all isNameChar (dbName (generateFlyAppName "my-casino")) = true
  /\ String.length (tigrisName (generateFlyAppName "my-casino")) <= 43.
Proof.
  pose proof (derived_names_are_plain "my-casino" eq_refl) as [Hall [_ [_ [_ Hlen]]]].
  split; [|exact Hlen].
  inversion Hall as [|? ? _ Hrest]; subst.
  inversion Hrest as [|? ? [Hdb _] _]; subst. exact Hdb.
Defined.

(** ** The names of the key generator *)

Lemma all_string_of_list (p : ascii -> bool) (l : list ascii) :
  Forall (fun c => p c = true) l -> Str.all p (string_of_list_ascii l) = true.
Proof.
  induction 1 as [|c l Hc _ IH]; simpl; [reflexivity | now rewrite Hc, IH].
Qed.

Lemma envUnit_plain (n : nat) : isEnvChar (envUnit n) = true.
Proof.
  unfold envUnit, isEnvUnit.
  destruct ((65 <=? n) && (n <=? 90) || (48 <=? n) && (n <=? 57))%nat eqn:H;
    [|reflexivity].
  assert (Hn : n < 256).
  { rewrite orb_true_iff, !andb_true_iff, !Nat.leb_le in H. lia. }
  unfold isEnvChar, Str.isUpper, Str.isDigit, Str.between.
  rewrite (nat_ascii_embedding n Hn). cbn beta. rewrite H. reflexivity.
Qed.

Lemma toUpperCase_nonempty (s : string) :
  Js.truthy s = true -> Str.toUpperCase s <> [].
Proof.
  destruct s as [|c s]; [discriminate|]. intros _. simpl.
  unfold Str.upperUnits.
  repeat match goal with |- context [if ?b then _ else _] => destruct b end;
    discriminate.
Qed.

(** X3. The name of the environment variable that [keygenCommand] prints
    for a custom purpose is never empty and is made of capital letters,
    digits and underscores only, whatever label was given. *)
Theorem envVarName_plain (purpose : option string) :
  Str.all isEnvChar (envVarName purpose) = true
  /\ envVarName purpose <> "".
Proof.
  unfold envVarName. split.
  - apply all_string_of_list. apply Forall_forall. intros c Hin.
    apply in_map_iff in Hin. destruct Hin as [n [<- _]]. apply envUnit_plain.
  - assert (Ht : Js.truthy (Js.orOpt purpose "custom") = true).
    { destruct purpose as [s|]; [|reflexivity].
      unfold Js.orOpt, Js.or. now destruct (Js.truthy s) eqn:H. }
    pose proof (toUpperCase_nonempty _ Ht) as Hne.
    destruct (Str.toUpperCase (Js.orOpt purpose "custom")); [contradiction|].
    discriminate.
Qed.

Lemma all_excludes (p : ascii -> bool) (c : ascii) (s : string) :
  Str.all p s = true -> p c = false ->
  Js.includes s (String c EmptyString) = false.
Proof.
  intros Hall Hc. induction s as [|d s IH]; [reflexivity|].
  simpl in Hall. apply andb_true_iff in Hall. destruct Hall as [Hd Hs].
  cbn [Js.includes Js.startsWith].
  destruct (Ascii.eqb_spec c d) as [->|_]; [congruence|]. now apply IH.
Qed.

Lemma replaceOutside_all (class : ascii -> bool) (b : ascii) (s : string) :
  class b = true -> Str.all class (Str.replaceOutside class b s) = true.
Proof.
  intros Hb. induction s as [|c s IH]; simpl; [reflexivity|].
  rewrite IH, andb_true_r. now destruct (class c) eqn:Hc.
Qed.

Lemma replaceOutside_length (class : ascii -> bool) (b : ascii) (s : string) :
  String.length (Str.replaceOutside class b s) = String.length s.
Proof. induction s as [|c s IH]; simpl; [reflexivity | now rewrite IH]. Qed.

Lemma replaceOutside_fixed (class : ascii -> bool) (b : ascii) (s : string) :
  Str.all class s = true -> Str.replaceOutside class b s = s.
Proof.
  induction s as [|c s IH]; simpl; [reflexivity|].
  rewrite andb_true_iff. intros [Hc Hs]. now rewrite Hc, IH.
Qed.

Lemma trim_fixed (s : string) :
  Str.all ClusterLine.isNonSpace s = true -> Js.trim s = s.
Proof.
  intros Hall. unfold Js.trim.
  assert (Hstart : Js.trimStart s = s).
  { destruct s as [|c s]; [reflexivity|]. simpl in Hall |- *.
    apply andb_true_iff in Hall. destruct Hall as [Hc _].
    unfold ClusterLine.isNonSpace, ClusterLine.isSpace in Hc.
    apply negb_true_iff in Hc. now rewrite Hc. }
  rewrite Hstart. clear Hstart.
  induction s as [|c s IH]; [reflexivity|].
  simpl in Hall. apply andb_true_iff in Hall. destruct Hall as [Hc Hs].
  cbn [Js.trimEnd]. rewrite (IH Hs).
  unfold ClusterLine.isNonSpace, ClusterLine.isSpace in Hc.
  apply negb_true_iff in Hc. rewrite Hc. now destruct s.
Qed.

Lemma isFileChar_not_space (c : ascii) :
  isFileChar c = true -> ClusterLine.isNonSpace c = true.
Proof.
  destruct c as [[] [] [] [] [] [] [] []]; vm_compute; congruence.
Qed.

(** X4. The file name under which [keygenCommand] saves a key pair has
    as many characters as the trimmed input and only letters, digits,
    hyphens and underscores: it holds no slash, backslash or dot, so the
    file lands in the current directory; sanitizing it again changes
    nothing; and an input the prompt accepts gives a name that is not
    empty. *)
Theorem sanitizedFilename_plain (filename : string) :
  Str.all isFileChar (sanitizedFilename filename) = true
  /\ String.length (sanitizedFilename filename)
     = String.length (Js.trim filename)
  /\ Js.includes (sanitizedFilename filename) "/" = false
  /\ Js.includes (sanitizedFilename filename) (String "092"%char "") = false
  /\ Js.includes (sanitizedFilename filename) "." = false
  /\ sanitizedFilename (sanitizedFilename filename) = sanitizedFilename filename
  /\ (filenameAccepted filename = true -> sanitizedFilename filename <> "").
Proof.
  assert (Hall : Str.all isFileChar (sanitizedFilename filename) = true).
  { unfold sanitizedFilename. now apply replaceOutside_all. }
  split; [exact Hall|]. split.
  { unfold sanitizedFilename. apply replaceOutside_length. }
  split; [now apply (all_excludes isFileChar)|].
  split; [now apply (all_excludes isFileChar)|].
  split; [now apply (all_excludes isFileChar)|].
  split.
  - unfold sanitizedFilename at 1.
    rewrite (trim_fixed _ (all_impl _ _ _ isFileChar_not_space Hall)).
    now apply replaceOutside_fixed.
  - unfold filenameAccepted. rewrite andb_true_iff, negb_true_iff, Nat.eqb_neq.
    intros [_ Hlen] Hempty. apply Hlen.
    apply (f_equal String.length) in Hempty.
    unfold sanitizedFilename in Hempty.
    now rewrite replaceOutside_length in Hempty.
Qed.

Lemma sanitizedFilename_plain_witness :
  sanitizedFilename "  ../../etc/passwd " = "------etc-passwd"
  /\ sanitizedFilename "  ../../etc/passwd " <> "".
Proof.
  split; [reflexivity|].
  exact (proj2 (proj2 (proj2 (proj2 (proj2 (proj2
           (sanitizedFilename_plain "  ../../etc/passwd "))))))
           eq_refl).
Defined.

(** ** The clone, once more *)

(** X5. When the directory of the casino already exists,
    [cloneCasinoBackend] throws before it starts git: the only thing it has
    done is ensure the directory of the casinos, and the existing directory
    is neither cloned into nor removed. *)
Theorem clone_leaves_existing_directory {W : Type} {P : Platform W}
  (name : string) (s : Sys W) (w1 : W) :
  fsMkdir CASINOS_DIR (world s) = (None, w1) ->
  fsAccess (getCasinoPath name) w1 = true ->
  cloneCasinoBackend name s
  = (Throw ("Casino directory already exists at " ++ getCasinoPath name
            ++ ". Please choose a different name or remove the existing directory."),
     mkSys w1 (journal s ++ [EMkdir CASINOS_DIR])).
Proof.
  intros Hmk Hpresent.
  unfold cloneCasinoBackend, ensureCasinosDirectory, casinoExists, bind.
  rewrite Hmk. cbn [world record]. now rewrite Hpresent.
Qed.

Lemma clone_leaves_existing_directory_witness :
  fst (cloneCasinoBackend "demo"
         (mkSys (Scripted.mkWorld [] ["/home/op/.fare-casinos/demo"] false) []))
  = Throw "Casino directory already exists at /home/op/.fare-casinos/demo. Please choose a different name or remove the existing directory."
  /\ journal (snd (cloneCasinoBackend "demo"
         (mkSys (Scripted.mkWorld [] ["/home/op/.fare-casinos/demo"] false) [])))
     = [EMkdir "/home/op/.fare-casinos"].
Proof.
  erewrite clone_leaves_existing_directory;
    [split; reflexivity | vm_compute; reflexivity | vm_compute; reflexivity].
Defined.


(** ** The token and the typed calls *)

Lemma splitAux_pieces (sep : ascii) (s : string) :
  forall cur,
    Str.all (fun c => negb (Ascii.eqb c sep)) cur = true ->
    Forall (fun piece => Str.all (fun c => negb (Ascii.eqb c sep)) piece = true)
           (Js.splitAux sep s cur).
Proof.
  induction s as [|c s IH]; intros cur Hcur; simpl.
  - now constructor.
  - destruct (Ascii.eqb c sep) eqn:Hc.
    + constructor; [exact Hcur | now apply IH].
    + apply IH. rewrite all_append, Hcur. simpl. now rewrite Hc.
Qed.

Lemma splitAux_head (sep : ascii) (s : string) :
  forall cur, exists p, hd "" (Js.splitAux sep s cur) = cur ++ p.
Proof.
  induction s as [|c s IH]; intros cur; simpl.
  - exists "". induction cur as [|x cur IHc]; simpl; [reflexivity | now rewrite <- IHc].
  - destruct (Ascii.eqb c sep).
    + exists "". simpl. induction cur as [|x cur IHc]; simpl;
        [reflexivity | now rewrite <- IHc].
    + destruct (IH (cur ++ String c "")) as [p Hp].
      exists (String c p). now rewrite Hp, append_assoc.
Qed.

Lemma trimStart_head (s : string) :
  Js.trimStart s = ""
  \/ exists c r, Js.trimStart s = String c r /\ Js.isSpace c = false.
Proof.
  induction s as [|c s IH]; simpl; [now left|].
  destruct (Js.isSpace c) eqn:Hc; [exact IH|].
  right. now exists c, s.
Qed.

Lemma trimEnd_head (c : ascii) (r : string) :
  Js.isSpace c = false -> exists r', Js.trimEnd (String c r) = String c r'.
Proof.
  intros Hc. cbn [Js.trimEnd]. rewrite Hc.
  destruct (Js.trimEnd r); eexists; reflexivity.
Qed.

Lemma first_line_of_trimmed (out : string) :
  let token := hd "" (Js.split "010"%char (Js.trim out)) in
  Str.all notLineFeed token = true /\ Js.trimStart token = token.
Proof.
  intros token. split.
  - unfold token, Js.split.
    pose proof (splitAux_pieces "010"%char (Js.trim out) "" eq_refl) as Hall.
    destruct (Js.splitAux "010"%char (Js.trim out) ""); [reflexivity|].
    inversion Hall; subst. assumption.
  - unfold token, Js.trim, Js.split.
    destruct (trimStart_head out) as [Hempty | [c [r [Hs Hc]]]].
    + rewrite Hempty. reflexivity.
    + rewrite Hs. destruct (trimEnd_head c r Hc) as [r' Hr]. rewrite Hr.
      cbn [Js.splitAux].
      assert (Hlf : Ascii.eqb c "010"%char = false).
      { destruct (Ascii.eqb_spec c "010"%char) as [->|]; [discriminate Hc | reflexivity]. }
      rewrite Hlf.
      destruct (splitAux_head "010"%char r' ("" ++ String c "")) as [p Hp].
      rewrite Hp. simpl. now rewrite Hc.
Qed.

(** X7. A token that [getFlyAuthToken] resolves with holds no line feed
    and does not begin with white space: it is the first line of the trimmed
    output of [fly auth token]. *)
Theorem auth_token_is_one_line {W : Type} {P : Platform W}
  (s s' : Sys W) (token : string) :
  getFlyAuthToken s = (Ok token, s') ->
  Str.all notLineFeed token = true /\ Js.trimStart token = token.
Proof.
  unfold getFlyAuthToken.
  destruct (doSpawn _ s) as [[e|code out err] s1]; [discriminate|].
  destruct (rejects code); [discriminate|].
  intros H. inversion H; subst. apply first_line_of_trimmed.
Qed.

Lemma auth_token_is_one_line_witness :
  fst (getFlyAuthToken tokenThenWarning) = Ok "fo1_token"
  /\ Str.all notLineFeed "fo1_token" = true.
Proof.
  split; [reflexivity|].
  refine (proj1 (auth_token_is_one_line tokenThenWarning
                   (snd (getFlyAuthToken tokenThenWarning)) "fo1_token" _)).
  vm_compute. reflexivity.
Defined.

Section TokenFailure.

Context {W : Type} {P : Platform W}.

Lemma withFlyGraphQL_without_token {A : Type}
  (operation : string -> M (Sys W) A) (s : Sys W) (w1 : W)
  (code : option Z) (out err : string) :
  spawn tokenRequest (world s) = (ProcClose code out err, w1) ->
  rejects code = true ->
  withFlyGraphQL operation s
  = (Throw ("Failed to get Fly auth token: " ++ err),
     mkSys w1 (journal s ++ [ESpawn tokenRequest])).
Proof.
  intros Hs Hr. unfold withFlyGraphQL, bind, getFlyAuthToken, doSpawn.
  fold tokenRequest. now rewrite Hs, Hr.
Qed.

Lemma findOrganization_without_token (orgSlug : string) (s : Sys W) (w1 : W)
  (code : option Z) (out err : string) :
  spawn tokenRequest (world s) = (ProcClose code out err, w1) ->
  rejects code = true ->
  findOrganization orgSlug s
  = (Throw ("Failed to get Fly auth token: " ++ err),
     mkSys w1 (journal s ++ [ESpawn tokenRequest])).
Proof.
  intros Hs Hr. unfold findOrganization, currentOrganizations, bind.
  now rewrite (withFlyGraphQL_without_token _ _ _ _ _ _ Hs Hr).
Qed.

Lemma findApp_without_token (appName : string) (s : Sys W) (w1 : W)
  (code : option Z) (out err : string) :
  spawn tokenRequest (world s) = (ProcClose code out err, w1) ->
  rejects code = true ->
  findApp appName s
  = (Throw ("Failed to get Fly auth token: " ++ err),
     mkSys w1 (journal s ++ [ESpawn tokenRequest])).
Proof.
  intros Hs Hr. unfold findApp, bind.
  now rewrite (withFlyGraphQL_without_token _ _ _ _ _ _ Hs Hr).
Qed.

End TokenFailure.

(** X8. When [fly auth token] ends with a non-zero exit code, or with
    none, no GraphQL request is made: creating the application, the cache
    and the storage and setting the secrets each fail with their own prefix
    followed by the token error and the error output of the command, after
    that one command; [appExists] answers [false]. *)
Theorem no_typed_call_without_token {W : Type} {P : Platform W}
  (appName orgSlug region : string)
  (secrets : list (string * option string)) (dir : option string)
  (s : Sys W) (w1 : W) (code : option Z) (out err : string) :
  spawn tokenRequest (world s) = (ProcClose code out err, w1) ->
  rejects code = true ->
  let s1 := mkSys w1 (journal s ++ [ESpawn tokenRequest]) in
  let reason := "Failed to get Fly auth token: " ++ err in
  createFlyApp appName orgSlug region s
  = (Throw ("Failed to create Fly.io app: " ++ reason), s1)
  /\ provisionRedis appName orgSlug region s
     = (Throw ("Failed to create Redis instance: " ++ reason), s1)
  /\ provisionTigris appName orgSlug region s
     = (Throw ("Failed to create Tigris storage: " ++ reason), s1)
  /\ setSecrets appName secrets dir s
     = (Throw ("Failed to set secrets: " ++ reason), s1)
  /\ appExists appName s = (Ok false, s1).
Proof.
  intros Hs Hr s1 reason.
  pose proof (findOrganization_without_token orgSlug _ _ _ _ _ Hs Hr) as Horg.
  pose proof (findApp_without_token appName _ _ _ _ _ Hs Hr) as Happ.
  split; [|split; [|split; [|split]]].
  - unfold createFlyApp, rethrow, tryCatch, bind. now rewrite Horg.
  - unfold provisionRedis, createAddOn, rethrow, tryCatch, bind.
    now rewrite Horg.
  - unfold provisionTigris, createAddOn, rethrow, tryCatch, bind.
    now rewrite Horg.
  - unfold setSecrets, rethrow, tryCatch, bind. now rewrite Happ.
  - unfold appExists, tryCatch, bind.
    now rewrite (withFlyGraphQL_without_token _ _ _ _ _ _ Hs Hr).
Qed.

Lemma no_typed_call_without_token_witness :
  fst (provisionRedis "fare-demo" "personal" "iad"
         (Scripted.start [ProcClose (Some 1%Z) "" "Error: no access token"] false))
  = Throw "Failed to create Redis instance: Failed to get Fly auth token: Error: no access token".
Proof.
  edestruct (no_typed_call_without_token "fare-demo" "personal" "iad" [] None
               (Scripted.start [ProcClose (Some 1%Z) "" "Error: no access token"] false))
    as [_ [Hredis _]].
  - vm_compute; reflexivity.
  - reflexivity.
  - rewrite Hredis. reflexivity.
Defined.

(** X9. [appExists] never throws: whatever the platform does, it resolves
    with a boolean, and with [true] only after a [GetApp] request. *)
Theorem appExists_never_throws {W : Type} {P : Platform W}
  (appName : string) (s : Sys W) :
  exists b,
    fst (appExists appName s) = Ok b
    /\ (b = true ->
        In (EGraphQL "GetApp") (journal (snd (appExists appName s)))).
Proof.
  cbv [appExists tryCatch bind withFlyGraphQL getFlyAuthToken call doSpawn
       ret throw].
  destruct (spawn (mkSpawn "fly" ["auth"; "token"] None None true true)
              (world s)) as [[e|code out err] w1]; cbn [fst snd].
  - exists false. split; [reflexivity | discriminate].
  - destruct (rejects code); cbn [fst snd].
    + exists false. split; [reflexivity | discriminate].
    + cbn [world record]. destruct (gqlGetApp _ appName w1) as [[[a|]|e] w2];
        cbn [fst snd journal record].
      * exists true. split; [reflexivity|]. intros _.
        apply in_or_app. right. now left.
      * exists false. split; [reflexivity | discriminate].
      * exists false. split; [reflexivity | discriminate].
Qed.

Lemma appExists_never_throws_witness :
  fst (appExists "fare-demo" (Scripted.start [] false)) = Ok true
  /\ In (EGraphQL "GetApp")
        (journal (snd (appExists "fare-demo" (Scripted.start [] false)))).
Proof.
  destruct (appExists_never_throws "fare-demo" (Scripted.start [] false))
    as [b [Hb Hcall]].
  assert (Htrue : b = true).
  { vm_compute in Hb. now inversion Hb. }
  subst b. split; [exact Hb | exact (Hcall eq_refl)].
Defined.

(** ** The probes *)

Section ProbeFacts.

Context {W : Type} {P : Platform W}.


End ProbeFacts.


(** ** The build *)

Section BuildFacts.

Context {W : Type} {P : Platform W}.

Lemma buildWorkspace_journal (dir : option string) (pkg : string)
  (s : Sys W) :
  journal (snd (buildWorkspace dir pkg s))
  = (journal s ++ [ESpawn (buildRequest dir pkg)])%list.
Proof.
  cbv [buildWorkspace bind executeNpmCommand doSpawn buildRequest throw ret].
  destruct (spawn _ (world s)) as [[e|code out err] w1]; [reflexivity|].
  cbn [fst snd]. destruct (failed _); reflexivity.
Qed.

Lemma buildAll_app (dir : option string) (l1 l2 : list string) (s : Sys W) :
  buildAll dir (l1 ++ l2) s = (buildAll dir l1 ;; buildAll dir l2) s.
Proof.
  revert s. induction l1 as [|pkg l1 IH]; intros s; [reflexivity|].
  cbn [app buildAll]. unfold bind.
  destruct (buildWorkspace dir pkg s) as [[u|e] s1]; [|reflexivity].
  rewrite IH. unfold bind. reflexivity.
Qed.

Lemma buildProject_loop (dir : option string) (s : Sys W) :
  buildProject dir s = buildAll dir buildOrder s.
Proof.
  unfold buildOrder. rewrite buildAll_app. unfold buildProject, bind.
  destruct (buildAll dir packageOrder s) as [[u|e] s1]; [|reflexivity].
  cbn [buildAll]. unfold bind, ret.
  destruct (buildWorkspace dir "apps/api" s1) as [[u1|e1] s2]; [|reflexivity].
  destruct (buildWorkspace dir "apps/ws" s2) as [[u2|e2] s3]; [|reflexivity].
  destruct (buildWorkspace dir "apps/processor" s3) as [[[]|e3] s4]; reflexivity.
Qed.

Lemma buildAll_prefix (dir : option string) (pkgs : list string) :
  forall s,
  exists n,
    n <= length pkgs
    /\ journal (snd (buildAll dir pkgs s))
       = (journal s
          ++ map (fun pkg => ESpawn (buildRequest dir pkg)) (firstn n pkgs))%list
    /\ match fst (buildAll dir pkgs s) with
       | Ok _ => n = length pkgs
       | Throw _ => 1 <= n
       end.
Proof.
  induction pkgs as [|pkg pkgs IH]; intros s.
  - exists 0. simpl. rewrite app_nil_r. repeat split; lia.
  - cbn [buildAll]. unfold bind.
    pose proof (buildWorkspace_journal dir pkg s) as Hj.
    destruct (buildWorkspace dir pkg s) as [[u|e] s1]; cbn [snd] in Hj.
    + destruct (IH s1) as [n [Hn [Hjn Hr]]].
      exists (S n). split; [simpl; lia|]. split.
      * rewrite Hjn, Hj, <- app_assoc. reflexivity.
      * destruct (fst (buildAll dir pkgs s1)); simpl; lia.
    + exists 1. cbn [fst snd]. split; [simpl; lia|]. split; [|lia].
      rewrite Hj. reflexivity.
Qed.

Lemma buildAll_stops (dir : option string) (before after : list string)
  (pkg : string) (s s1 s2 : Sys W) (r : CmdResult) :
  buildAll dir before s = (Ok tt, s1) ->
  executeNpmCommand ["run"; "build"; "--workspace"; pkg] dir true s1
  = (Ok r, s2) ->
  failed r = true ->
  buildAll dir (before ++ pkg :: after) s
  = (Throw ("Failed to build " ++ pkg), s2).
Proof.
  intros Hb He Hf. rewrite buildAll_app. unfold bind at 1. rewrite Hb.
  cbn [buildAll]. unfold bind, buildWorkspace. unfold bind.
  now rewrite He, Hf.
Qed.

Lemma executeNpmCommand_journal_of (dir : option string) (pkg : string)
  (s : Sys W) :
  journal (snd (executeNpmCommand ["run"; "build"; "--workspace"; pkg]
                  dir true s))
  = (journal s ++ [ESpawn (buildRequest dir pkg)])%list.
Proof.
  cbv [executeNpmCommand doSpawn buildRequest].
  destruct (spawn _ (world s)) as [[e|code out err] w1]; reflexivity.
Qed.

End BuildFacts.

(** X11. [buildProject] starts its builds in the order packages/utils,
    packages/db, packages/solana, apps/api, apps/ws, apps/processor, each one
    once and only after the one before it: at the end the builds that were
    started are a prefix of that order, all six when it resolves and at
    least one when it throws. *)
Theorem buildProject_builds_in_order {W : Type} {P : Platform W}
  (dir : option string) (s : Sys W) :
  exists n,
    n <= 6
    /\ journal (snd (buildProject dir s))
       = (journal s
          ++ map (fun pkg => ESpawn (buildRequest dir pkg))
                 (firstn n buildOrder))%list
    /\ match fst (buildProject dir s) with
       | Ok _ => n = 6
       | Throw _ => 1 <= n
       end.
Proof.
  rewrite buildProject_loop. exact (buildAll_prefix dir buildOrder s).
Qed.

(** X12. When a build ends with a non-zero exit code after the builds
    before it succeeded, [buildProject] throws the error that names that
    package, in the state that build left: nothing later in the order is
    built. *)
Theorem buildProject_names_failing_package {W : Type} {P : Platform W}
  (dir : option string) (before after : list string) (pkg : string)
  (s s1 s2 : Sys W) (r : CmdResult) :
  buildOrder = (before ++ pkg :: after)%list ->
  buildAll dir before s = (Ok tt, s1) ->
  executeNpmCommand ["run"; "build"; "--workspace"; pkg] dir true s1
  = (Ok r, s2) ->
  failed r = true ->
  buildProject dir s = (Throw ("Failed to build " ++ pkg), s2)
  /\ journal s2
     = (journal s
        ++ map (fun p => ESpawn (buildRequest dir p)) (before ++ [pkg]))%list.
Proof.
  intros Horder Hb He Hf.
  pose proof (buildAll_stops dir before after pkg s s1 s2 r Hb He Hf) as Hrun.
  split.
  - rewrite buildProject_loop, Horder. exact Hrun.
  - destruct (buildAll_prefix dir before s) as [n [Hn [Hj Hr]]].
    rewrite Hb in Hj, Hr. cbn [fst snd] in Hj, Hr. subst n.
    rewrite firstn_all in Hj.
    pose proof (executeNpmCommand_journal_of dir pkg s1) as Hlast.
    rewrite He in Hlast. cbn [snd] in Hlast.
    rewrite Hlast, Hj, map_app, <- app_assoc. reflexivity.
Qed.

Lemma buildProject_names_failing_package_witness :
  fst (buildProject (Some "/home/op/.fare-casinos/demo") apiBuildFails)
  = Throw "Failed to build apps/api"
  /\ length (journal (snd (buildProject (Some "/home/op/.fare-casinos/demo")
                             apiBuildFails))) = 4.
Proof.
  edestruct (buildProject_names_failing_package
               (Some "/home/op/.fare-casinos/demo") packageOrder
               ["apps/ws"; "apps/processor"] "apps/api" apiBuildFails)
    as [Hrun Hj].
  - reflexivity.
  - vm_compute; reflexivity.
  - vm_compute; reflexivity.
  - reflexivity.
  - rewrite Hrun. cbn [fst snd]. rewrite Hj. split; reflexivity.
Defined.

(** ** The wait of the database *)

Lemma waited_app (a b : list Event) :
  waited (a ++ b) = (waited a + waited b)%Z.
Proof.
  induction a as [|e a IH]; cbn [app waited]; [reflexivity|].
  destruct e; rewrite IH; lia.
Qed.

Lemma waited_sleep (ms : nat) : waited [ESleep ms] = Z.of_nat ms.
Proof. cbn [waited]. lia. Qed.

Lemma waited_other (e : Event) :
  (forall ms, e <> ESleep ms) -> waited [e] = 0%Z.
Proof. intros H. destruct e; try reflexivity. now contradiction (H ms). Qed.

Lemma three_seconds : Z.of_nat 3000 = 3000%Z.
Proof. vm_compute. reflexivity. Qed.

Lemma five_seconds : Z.of_nat 5000 = 5000%Z.
Proof. vm_compute. reflexivity. Qed.

Lemma span_all (p : ascii -> bool) (s : string) :
  Str.all p (fst (ClusterLine.span p s)) = true.
Proof.
  induction s as [|c s IH]; simpl; [reflexivity|].
  destruct (p c) eqn:Hc; [|reflexivity].
  destruct (ClusterLine.span p s) as [run rest]. simpl in *.
  now rewrite Hc, IH.
Qed.

Lemma plus_all (p : ascii -> bool) (s run rest : string) :
  ClusterLine.plus p s = Some (run, rest) -> Str.all p run = true.
Proof.
  unfold ClusterLine.plus. pose proof (span_all p s) as H.
  destruct (ClusterLine.span p s) as [r0 r1]. simpl in H.
  destruct (Js.truthy r0); [|discriminate].
  intros E. now inversion E; subst.
Qed.

Lemma matchLine_id_plain (line id status : string) :
  ClusterLine.matchLine line = Some (id, status) ->
  Str.all ClusterLine.isIdChar id = true.
Proof.
  unfold ClusterLine.matchLine.
  destruct (ClusterLine.plus ClusterLine.isIdChar line) as [[i r1]|] eqn:Hid;
    [|discriminate].
  pose proof (plus_all _ _ _ _ Hid) as Hall.
  repeat match goal with
         | |- context [match ?x with Some _ => _ | None => _ end] =>
             destruct x as [[? ?]|]; [|discriminate]
         end.
  intros H. now inversion H; subst.
Qed.

Lemma interpret_ready_plain (db : string) (r : CmdResult) (cid id : string) :
  interpret db r cid = (true, id) ->
  Str.all ClusterLine.isIdChar id = true.
Proof.
  unfold interpret.
  destruct (exitCode r =? 0)%Z; [|discriminate].
  destruct (findClusterLine db (stdout r)) as [line|]; [|discriminate].
  destruct (Js.truthy line); [|discriminate].
  destruct (ClusterLine.matchLine line) as [[i st]|] eqn:Hm; [|discriminate].
  destruct (String.eqb st "ready"); [|discriminate].
  intros H; inversion H; subst. exact (matchLine_id_plain _ _ _ Hm).
Qed.

Section PollFacts.

Context {W : Type} {P : Platform W}.
Variables appName orgSlug : string.

Lemma pass_result (i : nat) (cid : string) (s : Sys W) :
  match pass appName orgSlug i cid s with
  | (Ok (true, c), s') =>
      Str.all ClusterLine.isIdChar c = true
      /\ waited (journal s') = waited (journal s)
  | (Ok (false, _), s') =>
      waited (journal s')
      = (waited (journal s)
         + (if (i <? maxRetries - 1)%nat then 3000 else 0))%Z
  | (Throw _, s') => waited (journal s') = waited (journal s)
  end.
Proof.
  unfold pass, bind.
  destruct (executeFlyCommand (listArgs orgSlug) silent s) as [x s1] eqn:He.
  destruct (executeFlyCommand_journal _ _ _ _ _ He) as [q [_ Hj]].
  assert (H1 : waited (journal s1) = waited (journal s)).
  { rewrite Hj, waited_app, waited_other; [lia | discriminate]. }
  destruct x as [r|e]; [|exact H1].
  destruct (interpret (dbName appName) r cid) as [[|] c] eqn:Hi.
  - split; [exact (interpret_ready_plain _ _ _ _ Hi) | exact H1].
  - unfold pause. destruct (i <? maxRetries - 1)%nat; cbn [sleep ret fst snd].
    + cbn [journal record].
      rewrite waited_app, waited_sleep, three_seconds, H1. lia.
    + rewrite H1. lia.
Qed.

Lemma pollLoop_bounds (left : nat) :
  forall i cid s,
    let result := pollLoop appName orgSlug left i cid s in
    (waited (journal (snd result)) <= waited (journal s) + waitsLeft left i)%Z
    /\ queries orgSlug (journal (snd result))
       <= queries orgSlug (journal s) + left
    /\ (forall id, fst result = Ok (true, id) ->
                   Str.all ClusterLine.isIdChar id = true).
Proof.
  unfold waitsLeft.
  induction left as [|left IH]; intros i cid s; cbv zeta.
  - cbn [pollLoop ret fst snd]. repeat split; try lia. discriminate.
  - rewrite pollLoop_pass.
    pose proof (pass_result i cid s) as Hp.
    pose proof (pass_queries appName orgSlug i cid s) as Hq.
    destruct (pass appName orgSlug i cid s) as [[[[|] c]|e] s1].
    + destruct Hp as [Hall Hw]. specialize (Hq _ _ eq_refl).
      cbn [fst snd]. repeat split; try lia.
      intros id H. now inversion H; subst.
    + specialize (Hq _ _ eq_refl). specialize (IH (S i) c s1).
      cbn zeta in IH. destruct IH as [Hw [Hn Hid]].
      split; [|split; [lia | exact Hid]].
      rewrite Hp in Hw. unfold maxRetries in *.
      destruct (i <? 20 - 1)%nat eqn:Hlt;
        [apply Nat.ltb_lt in Hlt | apply Nat.ltb_ge in Hlt]; lia.
    + specialize (Hq _ _ eq_refl). cbn [fst snd].
      repeat split; try lia. discriminate.
Qed.

Lemma idle_waited (k : nat) :
  forall i cid s c s',
    idle appName orgSlug k i cid s = Some (c, s') ->
    waited (journal s') = (waited (journal s) + waitsLeft k i)%Z.
Proof.
  unfold waitsLeft.
  induction k as [|k IH]; intros i cid s c s' H; simpl in H.
  - inversion H; subst. lia.
  - pose proof (pass_result i cid s) as Hp.
    destruct (pass appName orgSlug i cid s) as [[[[|] c1]|e] s1];
      try discriminate.
    rewrite (IH _ _ _ _ _ H), Hp. unfold maxRetries.
    destruct (i <? 20 - 1)%nat eqn:Hlt;
      [apply Nat.ltb_lt in Hlt | apply Nat.ltb_ge in Hlt]; lia.
Qed.

End PollFacts.

(** X13. Whatever the platform answers, the wait for the database issues
    at most 20 status queries and sleeps at most 62 seconds: the settle
    delay of 5 seconds and at most 19 pauses of 3 seconds, none after the
    last attempt. *)
Theorem database_wait_is_bounded {W : Type} {P : Platform W}
  (appName orgSlug : string) (s : Sys W) :
  (waited (journal (snd (pgAwait appName orgSlug s)))
   <= waited (journal s) + 62000)%Z
  /\ queries orgSlug (journal (snd (pgAwait appName orgSlug s)))
     <= queries orgSlug (journal s) + 20.
Proof.
  destruct (pollLoop_bounds appName orgSlug maxRetries 0 "" (settled s))
    as [Hw [Hq _]].
  assert (Hs : waited (journal (settled s)) = (waited (journal s) + 5000)%Z
               /\ queries orgSlug (journal (settled s))
                  = queries orgSlug (journal s)).
  { unfold settled. cbn [sleep snd journal record].
    rewrite waited_app, waited_sleep, five_seconds, queries_snoc.
    cbn [isListQuery]. lia. }
  destruct Hs as [Hs1 Hs2].
  destruct (pollLoop appName orgSlug maxRetries 0 "" (settled s))
    as [res s1] eqn:Hloop.
  rewrite (pgAwait_polled _ _ _ _ _ Hloop).
  cbn [snd] in Hw, Hq. unfold waitsLeft, maxRetries in Hw.
  assert (Hsame : forall (x y : Res string * Sys W) (b : bool),
             snd x = s1 -> snd y = s1 -> snd (if b then x else y) = s1)
    by (intros x y []; auto).
  assert (Hend : snd (match res with
                      | Ok (clusterReady, clusterId) =>
                          if negb clusterReady || negb (Js.truthy clusterId)
                          then (Throw (notReadyMessage appName orgSlug), s1)
                          else (Ok clusterId, s1)
                      | Throw e => (Throw e, s1)
                      end) = s1).
  { destruct res as [[b c]|e]; [apply Hsame|]; reflexivity. }
  rewrite Hend. unfold maxRetries in *. lia.
Qed.

(** X14. When none of the 20 attempts is ready, the program has slept 62
    seconds, not the 60 its error message states: 5 seconds before the first
    query and 3 seconds after each of the first 19. *)
Theorem exhausted_wait_lasts_62_seconds {W : Type} {P : Platform W}
  (appName orgSlug : string) (s s_end : Sys W) (cid : string) :
  idle appName orgSlug maxRetries 0 "" (settled s) = Some (cid, s_end) ->
  pgAwait appName orgSlug s = (Throw (notReadyMessage appName orgSlug), s_end)
  /\ waited (journal s_end) = (waited (journal s) + 62000)%Z.
Proof.
  intros Hidle. split; [exact (pgAwait_exhausted _ _ _ _ _ Hidle)|].
  rewrite (idle_waited _ _ _ _ _ _ _ _ Hidle).
  unfold settled. cbn [sleep snd journal record].
  rewrite waited_app, waited_sleep, five_seconds.
  unfold waitsLeft, maxRetries. lia.
Qed.

Lemma exhausted_wait_lasts_62_seconds_witness :
  waited (journal (snd (pgAwait "fare-demo" "personal" alwaysFailed)))
  = 62000%Z.
Proof.
  edestruct (exhausted_wait_lasts_62_seconds "fare-demo" "personal" alwaysFailed)
    as [Hrun Hw].
  - vm_compute; reflexivity.
  - rewrite Hrun. exact Hw.
Defined.

(** X15. A cluster identifier that the wait resolves with is not empty
    and is made of lowercase letters and digits only, so the attach and
    status commands built from it, which run through the shell, get it as
    one plain word. *)
Theorem cluster_id_is_plain {W : Type} {P : Platform W}
  (appName orgSlug : string) (s s' : Sys W) (id : string) :
  pgAwait appName orgSlug s = (Ok id, s') ->
  Js.truthy id = true /\ Str.all ClusterLine.isIdChar id = true.
Proof.
  intros H.
  destruct (pollLoop_bounds appName orgSlug maxRetries 0 "" (settled s))
    as [_ [_ Hid]].
  destruct (pollLoop appName orgSlug maxRetries 0 "" (settled s))
    as [res s1] eqn:Hloop.
  rewrite (pgAwait_polled _ _ _ _ _ Hloop) in H.
  destruct res as [[b c]|e]; [|discriminate].
  destruct b; cbn [negb orb] in H; [|discriminate].
  destruct (Js.truthy c) eqn:Ht; cbn [negb] in H; [|discriminate].
  inversion H; subst. split; [exact Ht|]. now apply Hid.
Qed.

Lemma cluster_id_is_plain_witness :
  Str.all ClusterLine.isIdChar "abc123" = true.
Proof.
  refine (proj2 (cluster_id_is_plain "fare-demo" "personal" readyAtThird
                   (snd (pgAwait "fare-demo" "personal" readyAtThird))
                   "abc123" _)).
  vm_compute. reflexivity.
Defined.

(** ** The context of a completed run *)

Section CompletedRun.

Context {W : Type} {P : Platform W}.

Lemma cloneCasinoBackend_path (name : string) (s s' : Sys W) (p : string) :
  cloneCasinoBackend name s = (Ok p, s') -> p = getCasinoPath name.
Proof.
  unfold cloneCasinoBackend, ensureCasinosDirectory, casinoExists, bind,
    doSpawn, removeQuietly, throw.
  destruct (fsMkdir CASINOS_DIR (world s)) as [[e|] w1]; [discriminate|].
  cbn [world record].
  destruct (fsAccess (getCasinoPath name) w1); [discriminate|].
  cbv beta iota. cbn [world record].
  destruct (spawn _ w1) as [[e|code out err] w2]; [discriminate|].
  destruct code as [[|q|q]|]; cbn [world record];
    try (destruct (fsRm (getCasinoPath name) w2); discriminate).
  intros H. now inversion H.
Qed.

Lemma cloneTask_populates (r r' : Run W) (u : unit) :
  task cloneTask r = (Ok u, r') ->
  casinoPath (ctx r') = Some (getCasinoPath (casinoName (ctx r))).
Proof.
  unfold cloneTask. cbn [task]. unfold bind, read, await, assign.
  destruct (cloneCasinoBackend (casinoName (ctx r)) (sys r))
    as [[p|e] s1] eqn:Hc; intros H; inversion H.
  cbn. now rewrite (cloneCasinoBackend_path _ _ _ _ Hc).
Qed.

Lemma postgresTask_populates (r r' : Run W) (u : unit) :
  task postgresTask r = (Ok u, r') ->
  exists access,
    postgresUrl (config (ctx r')) = Some (connectionString access)
    /\ databasePassword (config (ctx r')) = Some (password access)
    /\ postgresPassword (ctx r') = Some (password access).
Proof.
  unfold postgresTask. cbn [task]. unfold bind, read, await, assign.
  destruct (provisionPostgres (flyAppName (ctx r)) (flyOrgSlug (ctx r))
              defaultRegion (sys r)) as [[a|e] s1]; intros H; inversion H.
  exists a. repeat split.
Qed.

(** A task of the list leaves alone every field that is not listed for its
    position. *)
Lemma task_keeps_unlisted (f : Field) (n : nat) (t : Task W)
  (fp : list Field) :
  nth_error initTasks n = Some t ->
  nth_error writes n = Some fp ->
  ~ In f fp ->
  keeps f (task t).
Proof.
  pose proof (@initTasks_respect_writes W P) as Hall.
  revert n. induction Hall as [|t0 fp0 ts fps H0 _ IH]; intros n Ht Hfp Hf.
  - destruct n; discriminate.
  - destruct n as [|n]; cbn [nth_error] in Ht, Hfp.
    + inversion Ht; inversion Hfp; subst. now apply H0.
    + exact (IH n Ht Hfp Hf).
Qed.

Lemma history_invariant (I : InitContext -> Prop) (tasks : list (Task W)) :
  Forall (fun t => forall r res r',
              task t r = (res, r') -> I (ctx r) -> I (ctx r')) tasks ->
  forall r c, I (ctx r) -> In c (history tasks r) -> I c.
Proof.
  induction 1 as [|t rest Ht _ IH]; intros r c Hr Hin.
  - destruct Hin as [<-|[]]. exact Hr.
  - cbn [history] in Hin. destruct Hin as [<-|Hin]; [exact Hr|].
    destruct (task t r) as [[u|e] r'] eqn:Htask.
    + exact (IH r' c (Ht _ _ _ Htask Hr) Hin).
    + destruct Hin as [<-|[]]. exact (Ht _ _ _ Htask Hr).
Qed.

Lemma postgresTask_passwords (r : Run W) (res : Res unit) (r' : Run W) :
  task postgresTask r = (res, r') ->
  postgresPassword (ctx r) = databasePassword (config (ctx r)) ->
  postgresPassword (ctx r') = databasePassword (config (ctx r')).
Proof.
  unfold postgresTask. cbn [task]. unfold bind, read, await, assign.
  destruct (provisionPostgres (flyAppName (ctx r)) (flyOrgSlug (ctx r))
              defaultRegion (sys r)) as [[a|e] s1]; intros H Hagree;
    inversion H; subst; [reflexivity | exact Hagree].
Qed.

End CompletedRun.

(** Steps the value of a field back over one task of the list. *)
Ltac kept f n H :=
  rewrite (task_keeps_unlisted f n _ _ eq_refl eq_refl
             ltac:(simpl; intuition discriminate) _ _ _ H).

(** X16. When the pipeline of [initCommand] completes, all eleven tasks
    were invoked in order and the context it ends with holds the path of
    the casino, a cache URL, the storage bucket named after the
    application, and a database URL with its password, the same in the
    configuration and in the context; the names the run started from are
    unchanged. *)
Theorem completed_run_populates_context {W : Type} {P : Platform W}
  (context : InitContext) (s : Sys W) :
  outcome (initPipeline context s) = Completed ->
  let c := ctx (final (initPipeline context s)) in
  executed (initPipeline context s) = map title (@initTasks W P)
  /\ get FCasinoPath c = Some (getCasinoPath (casinoName context))
  /\ (exists url, get FRedisUrl c = Some url)
  /\ get FTigrisBucket c = Some (tigrisName (flyAppName context))
  /\ (exists access,
        get FPostgresUrl c = Some (connectionString access)
        /\ get FDatabasePassword c = Some (password access)
        /\ get FPostgresPassword c = Some (password access))
  /\ casinoName c = casinoName context
  /\ flyAppName c = flyAppName context
  /\ flyOrgSlug c = flyOrgSlug context.
Proof.
  intros Hout c.
  assert (Hexec : executed (initPipeline context s) = map title (@initTasks W P)).
  { unfold initPipeline, run in *.
    destruct (runFrom_completed initTasks 0 [] _ _ eq_refl Hout []) as [_ H].
    exact H. }
  split; [exact Hexec|]. clear Hexec. subst c.
  unfold initPipeline, run, initTasks in *. cbn [runFrom] in *.
  destruct (task cloneTask (mkRun context s)) as [[u1|e1] r1] eqn:H1;
    [|discriminate].
  destruct (task installTask r1) as [[u2|e2] r2] eqn:H2; [|discriminate].
  destruct (task prismaTask r2) as [[u3|e3] r3] eqn:H3; [|discriminate].
  destruct (task buildTask r3) as [[u4|e4] r4] eqn:H4; [|discriminate].
  destruct (task appTask r4) as [[u5|e5] r5] eqn:H5; [|discriminate].
  destruct (task redisTask r5) as [[u6|e6] r6] eqn:H6; [|discriminate].
  destruct (task tigrisTask r6) as [[u7|e7] r7] eqn:H7; [|discriminate].
  destruct (task postgresTask r7) as [[u8|e8] r8] eqn:H8; [|discriminate].
  destruct (task configTask r8) as [[u9|e9] r9] eqn:H9; [|discriminate].
  destruct (task secretsTask r9) as [[u10|e10] r10] eqn:H10; [|discriminate].
  destruct (task deployTask r10) as [[u11|e11] r11] eqn:H11; [|discriminate].
  cbn [final].
  assert (Hseed : forall f, ~ In f (concat writes) ->
                            get f (ctx r11) = get f context).
  { intros f Hf.
    pose proof (runFrom_keeps f initTasks
                  (respect_unlisted f _ _ initTasks_respect_writes Hf)
                  0 [] (mkRun context s)) as Hk.
    unfold initTasks in Hk. cbn [runFrom] in Hk.
    rewrite H1, H2, H3, H4, H5, H6, H7, H8, H9, H10, H11 in Hk. exact Hk. }
  assert (Hname : casinoName (ctx r11) = casinoName context).
  { assert (H : get FCasinoName (ctx r11) = get FCasinoName context)
      by (apply Hseed; simpl; intuition discriminate).
    now inversion H. }
  assert (Happ : flyAppName (ctx r11) = flyAppName context).
  { assert (H : get FFlyAppName (ctx r11) = get FFlyAppName context)
      by (apply Hseed; simpl; intuition discriminate).
    now inversion H. }
  assert (Horg : flyOrgSlug (ctx r11) = flyOrgSlug context).
  { assert (H : get FFlyOrgSlug (ctx r11) = get FFlyOrgSlug context)
      by (apply Hseed; simpl; intuition discriminate).
    now inversion H. }
  assert (Happ6 : flyAppName (ctx r6) = flyAppName context).
  { assert (H : get FFlyAppName (ctx r6) = get FFlyAppName context).
    { kept FFlyAppName 5 H6. kept FFlyAppName 4 H5. kept FFlyAppName 3 H4.
      kept FFlyAppName 2 H3. kept FFlyAppName 1 H2. kept FFlyAppName 0 H1.
      reflexivity. }
    now inversion H. }
  split; [|split; [|split; [|split; [|repeat split; assumption]]]].
  - kept FCasinoPath 10 H11. kept FCasinoPath 9 H10. kept FCasinoPath 8 H9.
    kept FCasinoPath 7 H8. kept FCasinoPath 6 H7. kept FCasinoPath 5 H6.
    kept FCasinoPath 4 H5. kept FCasinoPath 3 H4. kept FCasinoPath 2 H3.
    kept FCasinoPath 1 H2. exact (cloneTask_populates _ _ _ H1).
  - destruct (redisTask_populates _ _ _ H6) as [url Hurl]. exists url.
    kept FRedisUrl 10 H11. kept FRedisUrl 9 H10. kept FRedisUrl 8 H9.
    kept FRedisUrl 7 H8. kept FRedisUrl 6 H7. exact Hurl.
  - kept FTigrisBucket 10 H11. kept FTigrisBucket 9 H10.
    kept FTigrisBucket 8 H9. kept FTigrisBucket 7 H8.
    cbn [get]. rewrite (tigrisTask_populates _ _ _ H7). now rewrite Happ6.
  - destruct (postgresTask_populates _ _ _ H8) as [a [Hu [Hd Hp]]].
    exists a. repeat split.
    + kept FPostgresUrl 10 H11. kept FPostgresUrl 9 H10.
      kept FPostgresUrl 8 H9. exact Hu.
    + kept FDatabasePassword 10 H11. kept FDatabasePassword 9 H10.
      kept FDatabasePassword 8 H9. exact Hd.
    + kept FPostgresPassword 10 H11. kept FPostgresPassword 9 H10.
      kept FPostgresPassword 8 H9. exact Hp.
Qed.

Lemma completed_run_populates_context_witness :
  get FTigrisBucket
    (ctx (final (initPipeline Scripted.demoContext everythingSucceeds)))
  = Some "fare-demo-storage".
Proof.
  assert (Hout : outcome (initPipeline Scripted.demoContext everythingSucceeds)
                 = Completed) by (vm_compute; reflexivity).
  exact (proj1 (proj2 (proj2 (proj2
           (completed_run_populates_context Scripted.demoContext
              everythingSucceeds Hout))))).
Defined.

(** X17. The two copies of the database password, the one in the
    configuration and the one in the context, agree in every context of a
    run that starts with them equal, the context at an abort included. *)
Theorem password_copies_agree {W : Type} {P : Platform W}
  (context : InitContext) (s : Sys W) (c : InitContext) :
  postgresPassword context = databasePassword (config context) ->
  In c (history initTasks (mkRun context s)) ->
  postgresPassword c = databasePassword (config c).
Proof.
  intros Hagree Hin.
  apply (history_invariant
           (fun c => postgresPassword c = databasePassword (config c))
           initTasks) with (r := mkRun context s); [|exact Hagree|exact Hin].
  assert (Hother : forall n (t : Task W) fp,
             nth_error initTasks n = Some t ->
             nth_error writes n = Some fp ->
             ~ In FPostgresPassword fp -> ~ In FDatabasePassword fp ->
             forall r res r',
               task t r = (res, r') ->
               postgresPassword (ctx r) = databasePassword (config (ctx r)) ->
               postgresPassword (ctx r') = databasePassword (config (ctx r'))).
  { intros n t fp Ht Hfp Hp Hd r res r' Htask Hr.
    pose proof (task_keeps_unlisted FPostgresPassword n t fp Ht Hfp Hp
                  _ _ _ Htask) as H1.
    pose proof (task_keeps_unlisted FDatabasePassword n t fp Ht Hfp Hd
                  _ _ _ Htask) as H2.
    cbn [get] in H1, H2. congruence. }
  unfold initTasks.
  repeat (apply Forall_cons;
          [ first
              [ exact postgresTask_passwords
              | eapply (Hother 0); [reflexivity | reflexivity | | ];
                simpl; intuition discriminate
              | eapply (Hother 1); [reflexivity | reflexivity | | ];
                simpl; intuition discriminate
              | eapply (Hother 2); [reflexivity | reflexivity | | ];
                simpl; intuition discriminate
              | eapply (Hother 3); [reflexivity | reflexivity | | ];
                simpl; intuition discriminate
              | eapply (Hother 4); [reflexivity | reflexivity | | ];
                simpl; intuition discriminate
              | eapply (Hother 5); [reflexivity | reflexivity | | ];
                simpl; intuition discriminate
              | eapply (Hother 6); [reflexivity | reflexivity | | ];
                simpl; intuition discriminate
              | eapply (Hother 8); [reflexivity | reflexivity | | ];
                simpl; intuition discriminate
              | eapply (Hother 9); [reflexivity | reflexivity | | ];
                simpl; intuition discriminate
              | eapply (Hother 10); [reflexivity | reflexivity | | ];
                simpl; intuition discriminate ]
          | ]).
  apply Forall_nil.
Qed.

Lemma password_copies_agree_witness :
  postgresPassword
    (ctx (final (initPipeline Scripted.demoContext everythingSucceeds)))
  = databasePassword
      (config (ctx (final (initPipeline Scripted.demoContext everythingSucceeds)))).
Proof.
  apply (password_copies_agree Scripted.demoContext everythingSucceeds);
    [reflexivity|].
  unfold initPipeline, run.
  rewrite <- (history_last initTasks 0 []
                (mkRun Scripted.demoContext everythingSucceeds)).
  vm_compute. repeat (first [left; reflexivity | right]).
Defined.

(** ** The process groups *)

Lemma lookup_pushTo (group : string) (x : Member) (groups : Groups)
  (g : string) :
  lookupGroup g (pushTo group x groups)
  = if String.eqb group g
    then Some (match lookupGroup group groups with
               | Some ms => ms ++ [x]
               | None => [x]
               end)%list
    else lookupGroup g groups.
Proof.
  induction groups as [|[g0 ms] rest IH]; cbn [pushTo lookupGroup].
  - destruct (String.eqb_spec group g) as [->|Hne]; [reflexivity | reflexivity].
  - destruct (String.eqb_spec g0 group) as [->|Hne]; cbn [lookupGroup].
    + destruct (String.eqb_spec group g) as [->|Hg]; [reflexivity|reflexivity].
    + rewrite IH. destruct (String.eqb_spec g0 g) as [->|Hg0]; [|reflexivity].
      destruct (String.eqb_spec group g) as [->|_]; [contradiction | reflexivity].
Qed.

Lemma keys_pushTo (group : string) (x : Member) (groups : Groups) :
  map fst (pushTo group x groups)
  = match lookupGroup group groups with
    | Some _ => map fst groups
    | None => (map fst groups ++ [group])%list
    end.
Proof.
  induction groups as [|[g0 ms] rest IH]; cbn [pushTo lookupGroup map app];
    [reflexivity|].
  destruct (String.eqb_spec g0 group) as [->|Hne]; [reflexivity|].
  cbn [map fst]. rewrite IH. now destruct (lookupGroup group rest).
Qed.

Lemma lookup_none_keys (group : string) (groups : Groups) :
  lookupGroup group groups = None -> ~ In group (map fst groups).
Proof.
  induction groups as [|[g0 ms] rest IH]; cbn [lookupGroup map fst];
    [intros _ []|].
  destruct (String.eqb_spec g0 group) as [->|Hne]; [discriminate|].
  intros H [Heq|Hin]; [contradiction | exact (IH H Hin)].
Qed.

Lemma total_pushTo (group : string) (x : Member) (groups : Groups) :
  totalCount (pushTo group x groups) = S (totalCount groups).
Proof.
  induction groups as [|[g0 ms] rest IH]; [reflexivity|].
  cbn [pushTo]. destruct (String.eqb g0 group).
  - unfold totalCount. simpl. rewrite length_app. simpl. lia.
  - unfold totalCount in *. simpl in *. rewrite IH. lia.
Qed.

(** The groups after the loop has gone through [machines] from [groups]. *)
Lemma groups_fold (machines : list Machine) :
  forall groups,
    let after := fold_left (fun acc m => pushTo (groupOf m) (memberOf m) acc)
                           machines groups in
    totalCount after = totalCount groups + length machines
    /\ (NoDup (map fst groups) -> NoDup (map fst after))
    /\ (Forall (fun entry => snd entry <> []) groups ->
        Forall (fun entry => snd entry <> []) after)
    /\ (forall g,
          lookupGroup g after
          = match lookupGroup g groups, membersOf g machines with
            | None, [] => None
            | None, ms => Some ms
            | Some old, ms => Some (old ++ ms)%list
            end).
Proof.
  induction machines as [|m machines IH]; intros groups; cbv zeta.
  - cbn [fold_left length membersOf filter map]. repeat split; auto.
    intros g. destruct (lookupGroup g groups); [now rewrite app_nil_r | reflexivity].
  - cbn [fold_left length].
    destruct (IH (pushTo (groupOf m) (memberOf m) groups))
      as [Htotal [Hnodup [Hfull Hlookup]]].
    split; [rewrite Htotal, total_pushTo; lia|].
    split; [|split].
    + intros Hnd. apply Hnodup. rewrite keys_pushTo.
      destruct (lookupGroup (groupOf m) groups) eqn:Hl; [exact Hnd|].
      apply NoDup_app; [exact Hnd | repeat constructor; intros [] |].
      intros g Hin [<-|[]]. exact (lookup_none_keys _ _ Hl Hin).
    + intros Hne. apply Hfull. clear - Hne.
      induction groups as [|[g0 ms] rest IHg]; cbn [pushTo].
      * repeat constructor. discriminate.
      * inversion Hne as [|? ? H0 Hrest]; subst.
        destruct (String.eqb g0 (groupOf m)).
        -- constructor; [|exact Hrest]. cbn [snd]. now destruct ms.
        -- constructor; [exact H0 | now apply IHg].
    + intros g. rewrite Hlookup, lookup_pushTo. unfold membersOf.
      cbn [filter].
      destruct (String.eqb_spec (groupOf m) g) as [->|Hne].
      * cbn [map].
        destruct (lookupGroup g groups) as [old|];
          [now rewrite <- app_assoc | reflexivity].
      * destruct (lookupGroup g groups) as [old|]; reflexivity.
Qed.

(** X18. The grouping of [statusCommand] loses and repeats no machine: the
    sizes of the groups add up to the number of machines, no group name
    occurs twice, no group is empty, and in each group at most as many
    machines are counted as running as it has. *)
Theorem process_groups_partition (machines : list Machine) :
  totalCount (processGroups machines) = length machines
  /\ NoDup (map fst (processGroups machines))
  /\ Forall (fun entry => snd entry <> []
                          /\ runningCount (snd entry) <= length (snd entry))
            (processGroups machines).
Proof.
  destruct (groups_fold machines []) as [Htotal [Hnodup [Hfull _]]].
  cbv zeta in *. fold (processGroups machines) in *.
  split; [exact Htotal|]. split; [apply Hnodup; constructor|].
  specialize (Hfull (Forall_nil _)).
  apply Forall_forall. intros entry Hin.
  rewrite Forall_forall in Hfull. split; [now apply Hfull|].
  unfold runningCount. apply filter_length_le.
Qed.

(** X19. The members of a group are exactly the machines of that process
    group (of [default] for a machine that has none), in the order of the
    listing; a group exists only for a name that some machine bears. *)
Theorem process_group_members (machines : list Machine) (group : string) :
  lookupGroup group (processGroups machines)
  = match membersOf group machines with
    | [] => None
    | ms => Some ms
    end.
Proof.
  destruct (groups_fold machines []) as [_ [_ [_ Hlookup]]].
  exact (Hlookup group).
Qed.

(** ** The choice of the organization *)

Lemma findIndex_found {A : Type} (p : A -> bool) (l : list A) :
  forall i,
    findIndex p l = Some i ->
    exists x,
      nth_error l i = Some x /\ p x = true
      /\ l = (firstn i l ++ x :: skipn (S i) l)%list
      /\ Forall (fun y => p y = false) (firstn i l).
Proof.
  induction l as [|a l IH]; intros i H; [discriminate|].
  cbn [findIndex] in H. destruct (p a) eqn:Hp.
  - inversion H; subst. exists a. repeat split; auto.
  - destruct (findIndex p l) as [j|] eqn:Hj; [|discriminate].
    inversion H; subst. destruct (IH j eq_refl) as [x [Hn [Hx [Hl Hf]]]].
    exists x. split; [exact Hn|]. split; [exact Hx|]. split.
    + change (a :: l = a :: (firstn j l ++ x :: skipn (S j) l))%list.
      now rewrite <- Hl.
    + change (Forall (fun y => p y = false) (a :: firstn j l)).
      now constructor.
Qed.

Lemma findIndex_none {A : Type} (p : A -> bool) (l : list A) :
  findIndex p l = None -> existsb p l = false.
Proof.
  induction l as [|a l IH]; [reflexivity|]. cbn [findIndex existsb].
  destruct (p a); [discriminate|].
  destruct (findIndex p l); [discriminate|]. intros _. now apply IH.
Qed.

(** X20. Putting the personal organization first only reorders the
    choices: the result is a permutation of them, the others keep their
    relative order, and when some choice is a personal organization the
    first such choice is at the head, where the prompt takes its default. *)
Theorem personalFirst_reorders (choices : list Choice) :
  Permutation (personalFirst choices) choices
  /\ (existsb isPersonal choices = true ->
      exists c rest before after,
        personalFirst choices = c :: rest
        /\ isPersonal c = true
        /\ choices = (before ++ c :: after)%list
        /\ rest = (before ++ after)%list
        /\ Forall (fun y => isPersonal y = false) before).
Proof.
  unfold personalFirst.
  destruct (findIndex isPersonal choices) as [i|] eqn:Hi.
  - destruct (findIndex_found _ _ _ Hi) as [x [Hn [Hx [Hl Hf]]]].
    destruct i as [|i].
    + split; [apply Permutation_refl|]. intros _.
      cbn [firstn skipn app] in Hl.
      exists x, (skipn 1 choices), [], (skipn 1 choices).
      repeat split; auto.
    + rewrite Hn. unfold removeAt. split.
      * rewrite Hl at 3. apply Permutation_middle.
      * intros _.
        exists x, (firstn (S i) choices ++ skipn (S (S i)) choices)%list,
          (firstn (S i) choices), (skipn (S (S i)) choices).
        repeat split; auto.
  - split; [apply Permutation_refl|].
    rewrite (findIndex_none _ _ Hi). discriminate.
Qed.

Lemma personalFirst_reorders_witness :
  map choiceValue
    (personalFirst (choicesOf [("acme", "Acme"); ("my-Personal", "Me");
                               ("zeta", "Zeta")]))
  = ["my-Personal"; "acme"; "zeta"].
Proof.
  destruct (proj2 (personalFirst_reorders
                     (choicesOf [("acme", "Acme"); ("my-Personal", "Me");
                                 ("zeta", "Zeta")])) eq_refl)
    as [c [rest [before [after [Hrun _]]]]].
  rewrite Hrun. vm_compute in Hrun. inversion Hrun; subst. reflexivity.
Defined.

(** ** What the cleanup finds *)

Lemma startsWith_append (p s : string) : Js.startsWith p (p ++ s) = true.
Proof.
  induction p as [|c p IH]; simpl; [reflexivity|].
  now rewrite Ascii.eqb_refl.
Qed.

Lemma startsWith_inv (p s : string) :
  Js.startsWith p s = true -> exists post, s = p ++ post.
Proof.
  revert s. induction p as [|c p IH]; intros s H.
  - now exists s.
  - destruct s as [|d s]; [discriminate|]. simpl in H.
    destruct (Ascii.eqb_spec c d) as [->|]; [|discriminate].
    destruct (IH s H) as [post ->]. now exists post.
Qed.

Lemma includes_append (pre p post : string) :
  Js.includes (pre ++ p ++ post) p = true.
Proof.
  induction pre as [|c pre IH].
  - simpl. destruct (p ++ post) eqn:E; simpl;
      rewrite <- E, startsWith_append; reflexivity.
  - cbn [append Js.includes]. rewrite IH.
    now destruct (Js.startsWith p (String c (pre ++ p ++ post))).
Qed.

Lemma includes_inv (s p : string) :
  Js.includes s p = true -> exists pre post, s = pre ++ p ++ post.
Proof.
  induction s as [|c s IH]; cbn [Js.includes]; intros H.
  - destruct (Js.startsWith p "") eqn:Hs; [|discriminate].
    destruct (startsWith_inv _ _ Hs) as [post Hp]. now exists "", post.
  - destruct (Js.startsWith p (String c s)) eqn:Hs.
    + destruct (startsWith_inv _ _ Hs) as [post Hp]. now exists "", post.
    + destruct (IH H) as [pre [post ->]]. now exists (String c pre), post.
Qed.

Lemma includes_trans (s x y : string) :
  Js.includes s x = true -> Js.includes x y = true -> Js.includes s y = true.
Proof.
  intros Hs Hx.
  destruct (includes_inv _ _ Hs) as [pre [post ->]].
  destruct (includes_inv _ _ Hx) as [pre' [post' ->]].
  replace (pre ++ (pre' ++ y ++ post') ++ post)
    with ((pre ++ pre') ++ y ++ (post' ++ post))
    by (rewrite !append_assoc; reflexivity).
  apply includes_append.
Qed.

Lemma matchLine_clusterHead (line id status : string) :
  ClusterLine.matchLine line = Some (id, status) ->
  exists name, clusterHead line = Some (id, name).
Proof.
  unfold ClusterLine.matchLine, clusterHead.
  destruct (ClusterLine.plus ClusterLine.isIdChar line) as [[i r1]|];
    [|discriminate].
  destruct (ClusterLine.plus ClusterLine.isSpace r1) as [[w r2]|];
    [|discriminate].
  destruct (ClusterLine.plus ClusterLine.isNonSpace r2) as [[n r3]|];
    [|discriminate].
  repeat match goal with
         | |- context [match ?x with Some _ => _ | None => _ end] =>
             destruct x as [[? ?]|]; [|discriminate]
         end.
  intros H. inversion H; subst. now exists n.
Qed.

Lemma span_append (p : ascii -> bool) (a : string) (w : ascii)
  (rest : string) :
  Str.all p a = true -> p w = false ->
  ClusterLine.span p (a ++ String w rest) = (a, String w rest).
Proof.
  intros Ha Hw. induction a as [|c a IH]; simpl.
  - now rewrite Hw.
  - simpl in Ha. apply andb_true_iff in Ha. destruct Ha as [Hc Ha].
    now rewrite Hc, (IH Ha).
Qed.

Lemma addOnHead_first_column (name : string) (w : ascii) (rest : string) :
  Js.truthy name = true ->
  Str.all ClusterLine.isNonSpace name = true ->
  Js.isSpace w = true ->
  addOnHead (name ++ String w rest) = Some name.
Proof.
  intros Ht Hall Hw. unfold addOnHead, ClusterLine.plus.
  rewrite (span_append ClusterLine.isNonSpace name w rest Hall);
    [|unfold ClusterLine.isNonSpace, ClusterLine.isSpace; now rewrite Hw].
  rewrite Ht. cbn [ClusterLine.span].
  change (ClusterLine.isSpace w) with (Js.isSpace w). rewrite Hw.
  now destruct (ClusterLine.span ClusterLine.isSpace rest).
Qed.

Lemma in_flat_map_line {A : Type} (f : string -> list A) (lines : list string)
  (line : string) (x : A) :
  In line lines -> In x (f line) -> In x (flat_map f lines).
Proof. intros Hl Hx. apply in_flat_map. now exists line. Qed.

(** X21. The scan of the cleanup picks up every database that [init] can
    have attached: a line of the cluster listing that names the database of
    a casino and from which the poll of [provisionPostgres] reads the
    identifier [id] yields a cluster with that same identifier in
    [getFarePostgresClusters]. *)
Theorem cleanup_finds_attached_cluster {W : Type} {P : Platform W}
  (org name line id status : string) (s s1 : Sys W) (r : CmdResult) :
  executeCleanupFly ["mpg"; "list"; "--org"; org] s = (Ok r, s1) ->
  failed r = false ->
  In line (Js.split "010"%char (stdout r)) ->
  Js.includes line (dbName (generateFlyAppName name)) = true ->
  ClusterLine.matchLine line = Some (id, status) ->
  exists clusters clusterName,
    getFarePostgresClusters org s = (Ok clusters, s1)
    /\ In (id, clusterName) clusters.
Proof.
  intros He Hf Hline Hdb Hm.
  destruct (matchLine_clusterHead _ _ _ Hm) as [n Hn].
  exists (fareClusters (stdout r)), n. split.
  - unfold getFarePostgresClusters, bind. now rewrite He, Hf.
  - unfold fareClusters. apply (in_flat_map_line _ _ line); [exact Hline|].
    assert (H1 : Js.includes line "fare-" = true).
    { apply (includes_trans _ _ _ Hdb).
      unfold dbName, generateFlyAppName.
      exact (includes_append "" "fare-" (name ++ "-db")). }
    assert (H2 : Js.includes line "-db" = true).
    { apply (includes_trans _ _ _ Hdb).
      exact (includes_append (generateFlyAppName name) "-db" ""). }
    rewrite H1, H2, Hn. now left.
Qed.

Lemma cleanup_finds_attached_cluster_witness :
  fst (getFarePostgresClusters "personal"
         (Scripted.start [Scripted.exits 0 clusterListing] false))
  = Ok [("abc123", "fare-demo-db")].
Proof.
  edestruct (cleanup_finds_attached_cluster "personal" "demo"
               (Scripted.tableLine "ready") "abc123" "ready"
               (Scripted.start [Scripted.exits 0 clusterListing] false))
    as [clusters [nm [Hrun Hin]]].
  - vm_compute; reflexivity.
  - reflexivity.
  - vm_compute. right. left. reflexivity.
  - reflexivity.
  - reflexivity.
  - rewrite Hrun. cbn [fst]. f_equal.
    apply (f_equal fst) in Hrun. vm_compute in Hrun. now inversion Hrun.
Defined.

(** X22. The scan of the cleanup finds the cache and the storage under the
    names [init] gave them: when a line of the listing begins with the cache
    name (or the storage name) of a casino whose name holds no white space,
    followed by white space, [getFareAddOns] yields that name. *)
Theorem cleanup_finds_add_ons {W : Type} {P : Platform W}
  (org name : string) (kind : AddOnList) (w : ascii) (rest : string)
  (s s1 : Sys W) (r : CmdResult) :
  let addOn := generateFlyAppName name ++ addOnSuffix kind in
  executeCleanupFly [addOnCommand kind; "list"; "--org"; org] s = (Ok r, s1) ->
  failed r = false ->
  Str.all ClusterLine.isNonSpace name = true ->
  Js.isSpace w = true ->
  In (addOn ++ String w rest) (Js.split "010"%char (stdout r)) ->
  exists names,
    getFareAddOns org kind s = (Ok names, s1) /\ In addOn names
    /\ (addOn = match kind with
                | ListRedis => redisName (generateFlyAppName name)
                | ListTigris => tigrisName (generateFlyAppName name)
                end).
Proof.
  intros addOn He Hf Hname Hw Hline.
  exists (fareAddOns (addOnSuffix kind) (stdout r)). split; [|split].
  - unfold getFareAddOns, bind. now rewrite He, Hf.
  - unfold fareAddOns.
    apply (in_flat_map_line _ _ (addOn ++ String w rest)); [exact Hline|].
    assert (H1 : Js.includes (addOn ++ String w rest) "fare-" = true).
    { unfold addOn, generateFlyAppName. rewrite !append_assoc.
      exact (includes_append "" "fare-" _). }
    assert (H2 : Js.includes (addOn ++ String w rest) (addOnSuffix kind) = true).
    { unfold addOn. rewrite append_assoc. apply includes_append. }
    assert (Hall : Str.all ClusterLine.isNonSpace addOn = true).
    { unfold addOn, generateFlyAppName. rewrite !all_append, Hname.
      now destruct kind. }
    assert (Ht : Js.truthy addOn = true) by reflexivity.
    rewrite H1, H2, (addOnHead_first_column addOn w rest Ht Hall Hw).
    now left.
  - now destruct kind.
Qed.

Lemma cleanup_finds_add_ons_witness :
  fst (getFareAddOns "personal" ListRedis
         (Scripted.start [Scripted.exits 0 cacheListing] false))
  = Ok ["fare-demo-redis"].
Proof.
  edestruct (cleanup_finds_add_ons "personal" "demo" ListRedis " "%char
               " personal  free"
               (Scripted.start [Scripted.exits 0 cacheListing] false))
    as [names [Hrun [Hin _]]].
  - vm_compute; reflexivity.
  - reflexivity.
  - reflexivity.
  - reflexivity.
  - vm_compute. right. left. reflexivity.
  - rewrite Hrun. cbn [fst]. f_equal.
    apply (f_equal fst) in Hrun. vm_compute in Hrun. now inversion Hrun.
Defined.

(** ** The destroy loops of the cleanup *)

Section DestroyFacts.

Context {W : Type} {P : Platform W}.

Lemma executeCleanupFly_journal (arguments : list string) (s : Sys W) :
  journal (snd (executeCleanupFly arguments s))
  = (journal s ++ [ESpawn (cleanupRequest arguments)])%list.
Proof.
  cbv [executeCleanupFly doSpawn cleanupRequest].
  destruct (spawn _ (world s)) as [[e|code out err] w1]; reflexivity.
Qed.

Lemma destroyEach_resolves (command : string -> list string)
  (names : list string) :
  forall s s_end,
    afterDestroys command names s = Some s_end ->
    destroyEach command names s = (Ok tt, s_end)
    /\ journal s_end
       = (journal s
          ++ map (fun name => ESpawn (cleanupRequest (command name))) names)%list.
Proof.
  induction names as [|name rest IH]; intros s s_end H.
  - inversion H; subst. cbn. now rewrite app_nil_r.
  - cbn [afterDestroys] in H. cbn [destroyEach]. unfold bind.
    pose proof (executeCleanupFly_journal (command name) s) as Hj.
    destruct (executeCleanupFly (command name) s) as [[r|e] s1];
      [|discriminate].
    destruct (IH s1 s_end H) as [Hrun Hjend].
    split; [exact Hrun|]. cbn [snd] in Hj.
    rewrite Hjend, Hj, <- app_assoc. reflexivity.
Qed.

End DestroyFacts.

(** X23. The destroy loops of the cleanup do not look at exit codes: when
    each destroy command could be started, the loop over the applications
    resolves, having issued exactly one [apps destroy --yes] for each name in
    order, even if every one of them failed; the same holds for the clusters,
    which are destroyed by identifier. *)
Theorem cleanup_ignores_destroy_failures {W : Type} {P : Platform W}
  (apps : list string) (clusters : list (string * string))
  (s s1 s2 : Sys W) :
  afterDestroys (fun app => ["apps"; "destroy"; app; "--yes"]) apps s
  = Some s1 ->
  afterDestroys (fun id => ["mpg"; "destroy"; id; "--yes"])
                (map fst clusters) s1 = Some s2 ->
  destroyApps apps s = (Ok tt, s1)
  /\ destroyClusters clusters s1 = (Ok tt, s2)
  /\ journal s2
     = (journal s
        ++ map (fun app => ESpawn (cleanupRequest ["apps"; "destroy"; app; "--yes"]))
               apps
        ++ map (fun id => ESpawn (cleanupRequest ["mpg"; "destroy"; id; "--yes"]))
               (map fst clusters))%list.
Proof.
  intros Ha Hc.
  destruct (destroyEach_resolves _ _ _ _ Ha) as [Hrun1 Hj1].
  destruct (destroyEach_resolves _ _ _ _ Hc) as [Hrun2 Hj2].
  split; [exact Hrun1|]. split; [exact Hrun2|].
  rewrite Hj2, Hj1, <- app_assoc. reflexivity.
Qed.

Lemma cleanup_ignores_destroy_failures_witness :
  fst (destroyApps ["fare-demo"; "fare-test"] destroysFail) = Ok tt.
Proof.
  edestruct (cleanup_ignores_destroy_failures ["fare-demo"; "fare-test"] []
               destroysFail) as [Hrun _].
  - vm_compute; reflexivity.
  - reflexivity.
  - rewrite Hrun. reflexivity.
Defined.
